(** * Policy conditions of kubernetes-nmstate

    A shallow embedding of [pkg/policyconditions/conditions.go]: the four
    [SetPolicy*] helpers, and [Update] and [Reset], which aggregate the
    per-node enactments of a policy into the policy's [Degraded] and
    [Available] conditions and write them back through an
    optimistic-concurrency client, retrying on conflict.

    The cluster client, the clock, the error classification and the
    enactment counter are collaborators that live outside that file; they
    are interfaces here (type classes and section variables), and the
    theorems hold for every implementation of them.  An in-memory client
    with optimistic concurrency gives concrete runs. *)

From Stdlib Require Import ZArith List String Ascii Bool Lia DecimalString.
Import ListNotations.
Local Open Scope Z_scope.

(** ** Go values *)

(** Go's [int] on the 64-bit platforms the operator runs on: a [Z] kept in
    [-2^63, 2^63) by wrapping after every addition. *)
Definition wrap (z : Z) : Z := (z + 2 ^ 63) mod 2 ^ 64 - 2 ^ 63.

Definition int_add (x y : Z) : Z := wrap (x + y).

Definition in_int (z : Z) : Prop := - 2 ^ 63 <= z < 2 ^ 63.

(** [len(s)] of a slice. *)
Definition len {A : Type} (s : list A) : Z := Z.of_nat (List.length s).

(** The verb [%d] of [fmt.Sprintf]: decimal digits, a leading [-] for a
    negative number. *)
Definition fmt_d (z : Z) : string := NilZero.string_of_int (Z.to_int z).

(** A Go function that returns [(value, error)]. *)
Inductive result (E A : Type) : Type :=
| Ok (a : A)
| Err (e : E).
Arguments Ok {E A} a.
Arguments Err {E A} e.

(** [metav1.Time], as a number of clock ticks. *)
Definition Time := Z.

(** ** Kubernetes object metadata *)

Module metav1.

Record ObjectMeta : Type := {
  Name : string;
  Namespace : string;
  Labels : list (string * string);
  Generation : Z;
  ResourceVersion : Z
}.

End metav1.

Module types.

Record NamespacedName : Type := {
  Namespace : string;
  Name : string
}.

End types.

Module corev1.

Definition ConditionStatus := string.
Definition ConditionTrue : ConditionStatus := "True"%string.
Definition ConditionFalse : ConditionStatus := "False"%string.
Definition ConditionUnknown : ConditionStatus := "Unknown"%string.

(** Only the number of nodes is looked at. *)
Record Node : Type := { ObjectMeta : metav1.ObjectMeta }.

End corev1.

(** ** [api/shared]: conditions *)

Module nmstate.

Definition ConditionType := string.
Definition ConditionReason := string.

(** The fields of one entry of [status.conditions], as the CRD lists
    them. *)
Record Condition : Type := {
  CondType : ConditionType;
  Status : corev1.ConditionStatus;
  Reason : ConditionReason;
  Message : string;
  LastHeartbeatTime : Time;
  LastTransitionTime : Time
}.

Definition ConditionList := list Condition.

(** Modelled from the spec: the values of the condition type and reason
    constants, declared in [api/shared] (section 6 of the specification
    lists them). *)
Definition NodeNetworkConfigurationPolicyConditionAvailable : ConditionType :=
  "Available"%string.
Definition NodeNetworkConfigurationPolicyConditionDegraded : ConditionType :=
  "Degraded"%string.
Definition NodeNetworkConfigurationPolicyConditionConfigurationProgressing
  : ConditionReason := "ConfigurationProgressing"%string.
Definition NodeNetworkConfigurationPolicyConditionSuccessfullyConfigured
  : ConditionReason := "SuccessfullyConfigured"%string.
Definition NodeNetworkConfigurationPolicyConditionConfigurationNoMatchingNode
  : ConditionReason := "ConfigurationNoMatchingNode"%string.
Definition NodeNetworkConfigurationPolicyConditionFailedToConfigure
  : ConditionReason := "FailedToConfigure"%string.
Definition NodeNetworkConfigurationEnactmentConditionConfigurationAborted
  : ConditionReason := "ConfigurationAborted"%string.

(** Modelled from the spec: [ConditionList.Find], the linear scan by type
    of section 9; the first condition of that type. *)
Fixpoint ConditionList_Find (conditions : ConditionList)
  (conditionType : ConditionType) : option Condition :=
  match conditions with
  | [] => None
  | c :: rest =>
      if String.eqb (CondType c) conditionType then Some c
      else ConditionList_Find rest conditionType
  end.

(** An existing condition after [Set]: status, reason, message and
    heartbeat are overwritten, the transition time moves only when the
    status differs from the previous one. *)
Definition updated (now : Time) (status : corev1.ConditionStatus)
  (reason : ConditionReason) (message : string) (c : Condition) : Condition :=
  {| CondType := CondType c;
     Status := status;
     Reason := reason;
     Message := message;
     LastHeartbeatTime := now;
     LastTransitionTime :=
       if String.eqb (Status c) status then LastTransitionTime c else now |}.

(** Modelled from the spec: [ConditionList.Set] of [api/shared] (section 3):
    if a condition of that type exists, update it in place; else append a
    new condition with both timestamps set to now.  [now] is the reading
    of the clock the call makes. *)
Fixpoint ConditionList_Set (now : Time) (conditions : ConditionList)
  (conditionType : ConditionType) (status : corev1.ConditionStatus)
  (reason : ConditionReason) (message : string) : ConditionList :=
  match conditions with
  | [] =>
      [ {| CondType := conditionType; Status := status; Reason := reason;
           Message := message;
           LastHeartbeatTime := now; LastTransitionTime := now |} ]
  | c :: rest =>
      if String.eqb (CondType c) conditionType
      then updated now status reason message c :: rest
      else c :: ConditionList_Set now rest conditionType status reason message
  end.

End nmstate.

(** ** [api/v1beta1]: policies and enactments *)

Module nmstatev1beta1.

Record NodeNetworkConfigurationPolicyStatus : Type := {
  Conditions : nmstate.ConditionList
}.

(** The policy object.  Its [Spec] belongs to the cluster operator and is
    never inspected here, so its type is left open. *)
Record NodeNetworkConfigurationPolicy (PolicySpec : Type) : Type := {
  ObjectMeta : metav1.ObjectMeta;
  Spec : PolicySpec;
  Status : NodeNetworkConfigurationPolicyStatus
}.
Arguments ObjectMeta {PolicySpec} _.
Arguments Spec {PolicySpec} _.
Arguments Status {PolicySpec} _.

(** [policy.Status.Conditions = conditions], every other field kept. *)
Definition withConditions {PolicySpec : Type}
  (conditions : nmstate.ConditionList)
  (policy : NodeNetworkConfigurationPolicy PolicySpec)
  : NodeNetworkConfigurationPolicy PolicySpec :=
  {| ObjectMeta := ObjectMeta policy;
     Spec := Spec policy;
     Status := {| Conditions := conditions |} |}.

(** The status of an enactment, with the three properties of the CRD
    [nodenetworkconfigurationenactments.nmstate.io]; the desired state is
    an opaque document. *)
Record NodeNetworkConfigurationEnactmentStatus : Type := {
  DesiredState : string;
  PolicyGeneration : Z;
  EnactmentConditions : nmstate.ConditionList
}.

Record NodeNetworkConfigurationEnactment : Type := {
  EnactmentMeta : metav1.ObjectMeta;
  EnactmentStatus : NodeNetworkConfigurationEnactmentStatus
}.

End nmstatev1beta1.

(** ** [pkg/enactmentstatus/conditions]: the tally of enactments *)

Module enactmentconditions.

(** The snapshot tally; the projections are the accessor methods
    [Available()], [Failed()], ... the policy code calls. *)
Record EnactmentCount : Type := {
  Available : Z;
  Failed : Z;
  NotMatching : Z;
  Aborted : Z;
  Matching : Z;
  Progressing : Z
}.

Inductive Bucket : Type :=
| BAvailable | BFailed | BNotMatching | BAborted | BProgressing.

Import nmstate nmstatev1beta1.

(** Modelled from the spec: the classification of one current enactment
    by the reason of its [Available] condition (section 4.2). *)
Definition classify (e : NodeNetworkConfigurationEnactment) : Bucket :=
  match ConditionList_Find (EnactmentConditions (EnactmentStatus e))
          NodeNetworkConfigurationPolicyConditionAvailable with
  | None => BProgressing
  | Some c =>
      if (String.eqb (nmstate.Reason c)
            NodeNetworkConfigurationPolicyConditionSuccessfullyConfigured
          && String.eqb (nmstate.Status c) corev1.ConditionTrue)%bool
      then BAvailable
      else if String.eqb (nmstate.Reason c)
                NodeNetworkConfigurationPolicyConditionFailedToConfigure
      then BFailed
      else if String.eqb (nmstate.Reason c)
                NodeNetworkConfigurationPolicyConditionConfigurationNoMatchingNode
      then BNotMatching
      else if String.eqb (nmstate.Reason c)
                NodeNetworkConfigurationEnactmentConditionConfigurationAborted
      then BAborted
      else BProgressing
  end.

Definition zero : EnactmentCount :=
  {| Available := 0; Failed := 0; NotMatching := 0; Aborted := 0;
     Matching := 0; Progressing := 0 |}.

(** One more enactment in bucket [b]; every bucket but [notMatching] is a
    node the policy applies to. *)
Definition tally (b : Bucket) (c : EnactmentCount) : EnactmentCount :=
  match b with
  | BAvailable =>
      {| Available := int_add (Available c) 1; Failed := Failed c;
         NotMatching := NotMatching c; Aborted := Aborted c;
         Matching := int_add (Matching c) 1; Progressing := Progressing c |}
  | BFailed =>
      {| Available := Available c; Failed := int_add (Failed c) 1;
         NotMatching := NotMatching c; Aborted := Aborted c;
         Matching := int_add (Matching c) 1; Progressing := Progressing c |}
  | BNotMatching =>
      {| Available := Available c; Failed := Failed c;
         NotMatching := int_add (NotMatching c) 1; Aborted := Aborted c;
         Matching := Matching c; Progressing := Progressing c |}
  | BAborted =>
      {| Available := Available c; Failed := Failed c;
         NotMatching := NotMatching c; Aborted := int_add (Aborted c) 1;
         Matching := int_add (Matching c) 1; Progressing := Progressing c |}
  | BProgressing =>
      {| Available := Available c; Failed := Failed c;
         NotMatching := NotMatching c; Aborted := Aborted c;
         Matching := int_add (Matching c) 1;
         Progressing := int_add (Progressing c) 1 |}
  end.

(** Modelled from the spec: [Count] of [pkg/enactmentstatus/conditions]
    (section 4.2).  Enactments whose generation is not the policy's are
    left out of every bucket; [matching] is the number counted minus
    [notMatching]. *)
Fixpoint Count (enactments : list NodeNetworkConfigurationEnactment)
  (policyGeneration : Z) : EnactmentCount :=
  match enactments with
  | [] => zero
  | e :: rest =>
      if PolicyGeneration (EnactmentStatus e) =? policyGeneration
      then tally (classify e) (Count rest policyGeneration)
      else Count rest policyGeneration
  end.

End enactmentconditions.

(** ** Effects

    The code talks to the API server and reads the clock.  A computation
    is a function of the state of the world [W]; besides its value and the
    next state it yields the calls it made, in order, each with the answer
    it got. *)

Definition MatchingLabels := list (string * string).

Section Effects.

Variables error PolicySpec W : Type.

Inductive Event : Type :=
| EvGet (key : types.NamespacedName)
    (r : result error (nmstatev1beta1.NodeNetworkConfigurationPolicy PolicySpec))
| EvList (filter : MatchingLabels)
    (r : result error (list nmstatev1beta1.NodeNetworkConfigurationEnactment))
| EvNodes (r : result error (list corev1.Node))
| EvNow (t : Time)
| EvStatusUpdate (policy : nmstatev1beta1.NodeNetworkConfigurationPolicy PolicySpec)
    (r : option error).

Record Run (A : Type) : Type := {
  value : A;
  final : W;
  events : list Event
}.

Definition M (A : Type) : Type := W -> Run A.

Definition ret {A : Type} (a : A) : M A :=
  fun w => {| value := a; final := w; events := [] |}.

Definition bind {A B : Type} (m : M A) (f : A -> M B) : M B :=
  fun w =>
    let r := m w in
    let r' := f (value _ r) (final _ r) in
    {| value := value _ r'; final := final _ r';
       events := events _ r ++ events _ r' |}.

End Effects.

Arguments EvGet {error PolicySpec} key r.
Arguments EvList {error PolicySpec} filter r.
Arguments EvNodes {error PolicySpec} r.
Arguments EvNow {error PolicySpec} t.
Arguments EvStatusUpdate {error PolicySpec} policy r.
Arguments value {error PolicySpec W A} _.
Arguments final {error PolicySpec W A} _.
Arguments events {error PolicySpec W A} _.
Arguments ret {error PolicySpec W A} a _.
Arguments bind {error PolicySpec W A B} m f _.

Declare Scope go_scope.
Delimit Scope go_scope with go.
Notation "x <- m ;; k" := (bind m (fun x => k))
  (at level 61, m at next level, right associativity) : go_scope.
Local Open Scope go_scope.

(** [errors.Wrap] of [github.com/pkg/errors] and [apierrors.IsConflict] of
    apimachinery, over whatever type of errors the client returns. *)
Class ApiErrors (error : Type) : Type := {
  Wrap : error -> string -> error;
  IsConflict : error -> bool
}.

(** [time.Now()]. *)
Class Clock (W : Type) : Type := {
  Now : W -> Time * W
}.

(** The [client.Client] of controller-runtime as far as this package uses
    it, together with [node.NodesRunningNmstate], which lists through the
    same client.  Every call may change the world: other writers run
    between any two calls. *)
Class Client (error PolicySpec W : Type) : Type := {
  Get : types.NamespacedName -> W ->
        result error (nmstatev1beta1.NodeNetworkConfigurationPolicy PolicySpec) * W;
  List_ : MatchingLabels -> W ->
          result error (list nmstatev1beta1.NodeNetworkConfigurationEnactment) * W;
  NodesRunningNmstate : W -> result error (list corev1.Node) * W;
  StatusUpdate : nmstatev1beta1.NodeNetworkConfigurationPolicy PolicySpec -> W ->
                 option error * W
}.

(** ** The condition setters *)

Section SetPolicy.

Context {error PolicySpec W : Type} `{Clock W}.

Local Abbreviation M := (M error PolicySpec W).

(** Reading the clock. *)
Definition timeNow : M Time :=
  fun w => {| value := fst (Now w); final := snd (Now w);
              events := [EvNow (fst (Now w))] |}.

(** [conditions.Set(...)]: one reading of the clock, then the update. *)
Definition conditionsSet (conditions : nmstate.ConditionList)
  (conditionType : nmstate.ConditionType) (status : corev1.ConditionStatus)
  (reason : nmstate.ConditionReason) (message : string)
  : M nmstate.ConditionList :=
  now <- timeNow ;;
  ret (nmstate.ConditionList_Set now conditions conditionType status reason message).

Definition SetPolicyProgressing (conditions : nmstate.ConditionList)
  (message : string) : M nmstate.ConditionList :=
  conditions <- conditionsSet conditions
    nmstate.NodeNetworkConfigurationPolicyConditionDegraded
    corev1.ConditionUnknown
    nmstate.NodeNetworkConfigurationPolicyConditionConfigurationProgressing
    "" ;;
  conditionsSet conditions
    nmstate.NodeNetworkConfigurationPolicyConditionAvailable
    corev1.ConditionUnknown
    nmstate.NodeNetworkConfigurationPolicyConditionConfigurationProgressing
    message.

Definition SetPolicySuccess (conditions : nmstate.ConditionList)
  (message : string) : M nmstate.ConditionList :=
  conditions <- conditionsSet conditions
    nmstate.NodeNetworkConfigurationPolicyConditionDegraded
    corev1.ConditionFalse
    nmstate.NodeNetworkConfigurationPolicyConditionSuccessfullyConfigured
    "" ;;
  conditionsSet conditions
    nmstate.NodeNetworkConfigurationPolicyConditionAvailable
    corev1.ConditionTrue
    nmstate.NodeNetworkConfigurationPolicyConditionSuccessfullyConfigured
    message.

Definition SetPolicyNotMatching (conditions : nmstate.ConditionList)
  (message : string) : M nmstate.ConditionList :=
  conditions <- conditionsSet conditions
    nmstate.NodeNetworkConfigurationPolicyConditionDegraded
    corev1.ConditionFalse
    nmstate.NodeNetworkConfigurationPolicyConditionConfigurationNoMatchingNode
    message ;;
  conditionsSet conditions
    nmstate.NodeNetworkConfigurationPolicyConditionAvailable
    corev1.ConditionTrue
    nmstate.NodeNetworkConfigurationPolicyConditionConfigurationNoMatchingNode
    message.

Definition SetPolicyFailedToConfigure (conditions : nmstate.ConditionList)
  (message : string) : M nmstate.ConditionList :=
  conditions <- conditionsSet conditions
    nmstate.NodeNetworkConfigurationPolicyConditionDegraded
    corev1.ConditionTrue
    nmstate.NodeNetworkConfigurationPolicyConditionFailedToConfigure
    message ;;
  conditionsSet conditions
    nmstate.NodeNetworkConfigurationPolicyConditionAvailable
    corev1.ConditionFalse
    nmstate.NodeNetworkConfigurationPolicyConditionFailedToConfigure
    "".

(** [numberOfFinishedEnactments] of [Update]: the sum of four [int]s. *)
Definition numberOfFinishedEnactments
  (enactmentsCount : enactmentconditions.EnactmentCount) : Z :=
  int_add
    (int_add
       (int_add (enactmentconditions.Available enactmentsCount)
                (enactmentconditions.Failed enactmentsCount))
       (enactmentconditions.NotMatching enactmentsCount))
    (enactmentconditions.Aborted enactmentsCount).

(** The messages [Update] builds with [fmt.Sprintf]. *)
Definition progressingMessage (finished nodes : Z) : string :=
  ("Policy is progressing " ++ fmt_d finished ++ "/" ++ fmt_d nodes
     ++ " nodes finished")%string.

Definition failedMessage (failed matching : Z) : string :=
  (fmt_d failed ++ "/" ++ fmt_d matching ++ " nodes failed to configure")%string.

Definition abortedClause (aborted : Z) : string :=
  (", " ++ fmt_d aborted ++ " nodes aborted configuration")%string.

Definition successMessage (available : Z) : string :=
  (fmt_d available ++ "/" ++ fmt_d available
     ++ " nodes successfully configured")%string.

(** The decision of [Update], from the tally to the calls of the
    setters: the [if]/[else] chain between the count and the write. *)
Definition setPolicyConditions
  (enactmentsCount : enactmentconditions.EnactmentCount)
  (numberOfNmstateNodes : Z) (conditions : nmstate.ConditionList)
  : M nmstate.ConditionList :=
  if numberOfFinishedEnactments enactmentsCount <? numberOfNmstateNodes then
    SetPolicyProgressing conditions
      (progressingMessage (numberOfFinishedEnactments enactmentsCount)
         numberOfNmstateNodes)
  else if enactmentconditions.Matching enactmentsCount =? 0 then
    let message := "Policy does not match any node"%string in
    SetPolicyNotMatching conditions message
  else if ((0 <? enactmentconditions.Failed enactmentsCount)
           || (0 <? enactmentconditions.Aborted enactmentsCount))%bool then
    let message :=
      failedMessage (enactmentconditions.Failed enactmentsCount)
        (enactmentconditions.Matching enactmentsCount) in
    let message :=
      if 0 <? enactmentconditions.Aborted enactmentsCount
      then (message ++ abortedClause (enactmentconditions.Aborted enactmentsCount))%string
      else message in
    SetPolicyFailedToConfigure conditions message
  else
    let message := successMessage (enactmentconditions.Available enactmentsCount) in
    SetPolicySuccess conditions message.

End SetPolicy.

(** A clock that replays a list of readings (and reads 0 after them). *)
#[export] Instance scriptedClock : Clock (list Time) := {
  Now := fun ts => match ts with [] => (0, []) | t :: rest => (t, rest) end
}.

(** The condition list [setPolicyConditions] computes when the clock
    reads [ta] and then [tb]: the code itself, run against those two
    readings. *)
Definition conditionsAt (ta tb : Time)
  (enactmentsCount : enactmentconditions.EnactmentCount)
  (numberOfNmstateNodes : Z) (conditions : nmstate.ConditionList)
  : nmstate.ConditionList :=
  value (setPolicyConditions (error := unit) (PolicySpec := unit)
           enactmentsCount numberOfNmstateNodes conditions [ta; tb]).

(** ** [k8s.io/client-go/util/retry] *)

Module retry.

(** [wait.Backoff]; the duration, factor and jitter only shape the sleep
    between two attempts. *)
Record Backoff : Type := { Steps : Z }.

(** Modelled from the spec: the retry budget of the executor (section
    4.5), the [DefaultRetry] of client-go: five attempts. *)
Definition DefaultRetry : Backoff := {| Steps := 5 |}.

Section OnError.

Context {error PolicySpec W : Type}.

(** Modelled from the spec: the loop of the executor (section 4.5),
    [retry.OnError] of client-go: run [fn]; done when it succeeds;
    give up with its error when the error is not retriable; else go
    round again while the budget lasts, and surface the last error
    when it is used up. *)
Fixpoint OnError (steps : nat) (retriable : error -> bool)
  (fn : M error PolicySpec W (option error)) (lastErr : option error)
  : M error PolicySpec W (option error) :=
  match steps with
  | O => ret lastErr
  | S steps' =>
      err <- fn ;;
      match err with
      | None => ret None
      | Some e =>
          if retriable e then OnError steps' retriable fn (Some e)
          else ret (Some e)
      end
  end.

Definition RetryOnConflict `{ApiErrors error} (backoff : Backoff)
  (fn : M error PolicySpec W (option error))
  : M error PolicySpec W (option error) :=
  OnError (Z.to_nat (Steps backoff)) IsConflict fn None.

End OnError.

End retry.

(** ** [Update] and [Reset] *)

Section Policyconditions.

Context {error PolicySpec W : Type}.
Context `{ApiErrors error} `{Clock W} `{Client error PolicySpec W}.

(** [enactmentconditions.Count] and the label that ties an enactment to
    its policy, [nmstate.EnactmentPolicyLabel]: both are declared
    outside this package. *)
Variable Count :
  list nmstatev1beta1.NodeNetworkConfigurationEnactment -> Z ->
  enactmentconditions.EnactmentCount.
Variable EnactmentPolicyLabel : string.

Local Abbreviation Policy := (nmstatev1beta1.NodeNetworkConfigurationPolicy PolicySpec).
Local Abbreviation M := (M error PolicySpec W).

(** The calls on the client, each recorded with its answer. *)
Definition cliGet (key : types.NamespacedName) : M (result error Policy) :=
  fun w => {| value := fst (Get key w); final := snd (Get key w);
              events := [EvGet key (fst (Get key w))] |}.

Definition cliList (filter : MatchingLabels)
  : M (result error (list nmstatev1beta1.NodeNetworkConfigurationEnactment)) :=
  fun w => {| value := fst (List_ filter w); final := snd (List_ filter w);
              events := [EvList filter (fst (List_ filter w))] |}.

Definition nodeNodesRunningNmstate : M (result error (list corev1.Node)) :=
  fun w => {| value := fst (NodesRunningNmstate w);
              final := snd (NodesRunningNmstate w);
              events := [EvNodes (fst (NodesRunningNmstate w))] |}.

Definition cliStatusUpdate (policy : Policy) : M (option error) :=
  fun w => {| value := fst (StatusUpdate policy w);
              final := snd (StatusUpdate policy w);
              events := [EvStatusUpdate policy (fst (StatusUpdate policy w))] |}.

(** The filter [client.MatchingLabels{nmstate.EnactmentPolicyLabel: policy.Name}]. *)
Definition policyLabelFilter (policy : Policy) : MatchingLabels :=
  [(EnactmentPolicyLabel, metav1.Name (nmstatev1beta1.ObjectMeta policy))].

(** The closure [Update] hands to [retry.RetryOnConflict]: one attempt.
    (The log lines are left out.) *)
Definition Update_func1 (policyKey : types.NamespacedName) : M (option error) :=
  r <- cliGet policyKey ;;
  match r with
  | Err err => ret (Some (Wrap err "getting policy failed"))
  | Ok policy =>
      r <- cliList (policyLabelFilter policy) ;;
      match r with
      | Err err => ret (Some (Wrap err "getting enactments failed"))
      | Ok enactments =>
          r <- nodeNodesRunningNmstate ;;
          match r with
          | Err err =>
              ret (Some (Wrap err
                           "getting nodes running kubernets-nmstate pods failed"))
          | Ok nmstateNodes =>
              let numberOfNmstateNodes := len nmstateNodes in
              let enactmentsCount :=
                Count enactments
                  (metav1.Generation (nmstatev1beta1.ObjectMeta policy)) in
              conditions <-
                setPolicyConditions enactmentsCount numberOfNmstateNodes
                  (nmstatev1beta1.Conditions (nmstatev1beta1.Status policy)) ;;
              cliStatusUpdate (nmstatev1beta1.withConditions conditions policy)
          end
      end
  end.

Definition Update (policyKey : types.NamespacedName) : M (option error) :=
  retry.RetryOnConflict retry.DefaultRetry (Update_func1 policyKey).

(** The closure of [Reset]. *)
Definition Reset_func1 (policyKey : types.NamespacedName) : M (option error) :=
  r <- cliGet policyKey ;;
  match r with
  | Err err => ret (Some (Wrap err "getting policy failed"))
  | Ok policy => cliStatusUpdate (nmstatev1beta1.withConditions [] policy)
  end.

Definition Reset (policyKey : types.NamespacedName) : M (option error) :=
  retry.RetryOnConflict retry.DefaultRetry (Reset_func1 policyKey).

End Policyconditions.

(** ** An in-memory client

    A store with optimistic concurrency: every stored policy carries a
    resource version, a status write must present the version it read, and
    rival writers scheduled in the world strike just before a write. *)

Module fake.

Inductive error : Type :=
| NotFound (name : string)
| Conflict (name : string)
| Unavailable (what : string)
| Wrapped (cause : error) (message : string).

(** [IsConflict] looks through the wrapping, as [errors.As] does. *)
Fixpoint isConflict (e : error) : bool :=
  match e with
  | Conflict _ => true
  | Wrapped cause _ => isConflict cause
  | _ => false
  end.

#[export] Instance apiErrors : ApiErrors error := {
  Wrap := Wrapped;
  IsConflict := isConflict
}.

Definition Policy := nmstatev1beta1.NodeNetworkConfigurationPolicy string.

(** What a rival writer does to the cluster: new enactment reports, and
    the policy touched (or deleted) under the reconciler's feet. *)
Record Rival : Type := {
  reports : list nmstatev1beta1.NodeNetworkConfigurationEnactment;
  deletesPolicies : bool
}.

Record World : Type := {
  clock : Time;
  policies : list Policy;
  enactments : list nmstatev1beta1.NodeNetworkConfigurationEnactment;
  nodes : list corev1.Node;
  listFault : option error;
  nodesFault : option error;
  rivals : list Rival
}.

Definition named (name : string) (p : Policy) : bool :=
  String.eqb (metav1.Name (nmstatev1beta1.ObjectMeta p)) name.

Definition bump (p : Policy) : Policy :=
  {| nmstatev1beta1.ObjectMeta :=
       {| metav1.Name := metav1.Name (nmstatev1beta1.ObjectMeta p);
          metav1.Namespace := metav1.Namespace (nmstatev1beta1.ObjectMeta p);
          metav1.Labels := metav1.Labels (nmstatev1beta1.ObjectMeta p);
          metav1.Generation := metav1.Generation (nmstatev1beta1.ObjectMeta p);
          metav1.ResourceVersion :=
            metav1.ResourceVersion (nmstatev1beta1.ObjectMeta p) + 1 |};
     nmstatev1beta1.Spec := nmstatev1beta1.Spec p;
     nmstatev1beta1.Status := nmstatev1beta1.Status p |}.

Definition hasLabel (labels : list (string * string)) (kv : string * string)
  : bool :=
  existsb (fun l => String.eqb (fst l) (fst kv) && String.eqb (snd l) (snd kv))%bool
    labels.

Definition selected (filter : MatchingLabels)
  (e : nmstatev1beta1.NodeNetworkConfigurationEnactment) : bool :=
  forallb (hasLabel (metav1.Labels (nmstatev1beta1.EnactmentMeta e))) filter.

Definition strike (w : World) : World :=
  match rivals w with
  | [] => w
  | r :: rest =>
      {| clock := clock w;
         policies := if deletesPolicies r then [] else map bump (policies w);
         enactments := reports r;
         nodes := nodes w;
         listFault := listFault w;
         nodesFault := nodesFault w;
         rivals := rest |}
  end.

Definition store (p : Policy) (w : World) : World :=
  {| clock := clock w;
     policies :=
       map (fun q => if named (metav1.Name (nmstatev1beta1.ObjectMeta p)) q
                     then bump p else q) (policies w);
     enactments := enactments w;
     nodes := nodes w;
     listFault := listFault w;
     nodesFault := nodesFault w;
     rivals := rivals w |}.

Definition get (key : types.NamespacedName) (w : World)
  : result error Policy * World :=
  match find (named (types.Name key)) (policies w) with
  | Some p => (Ok p, w)
  | None => (Err (NotFound (types.Name key)), w)
  end.

Definition list_ (filter : MatchingLabels) (w : World)
  : result error (list nmstatev1beta1.NodeNetworkConfigurationEnactment) * World :=
  match listFault w with
  | Some e => (Err e, w)
  | None => (Ok (List.filter (selected filter) (enactments w)), w)
  end.

Definition nodesRunningNmstate (w : World)
  : result error (list corev1.Node) * World :=
  match nodesFault w with
  | Some e => (Err e, w)
  | None => (Ok (nodes w), w)
  end.

(** The write: the rival first, then the version check. *)
Definition statusUpdate (p : Policy) (w : World) : option error * World :=
  let w := strike w in
  let name := metav1.Name (nmstatev1beta1.ObjectMeta p) in
  match find (named name) (policies w) with
  | None => (Some (NotFound name), w)
  | Some q =>
      if metav1.ResourceVersion (nmstatev1beta1.ObjectMeta q)
         =? metav1.ResourceVersion (nmstatev1beta1.ObjectMeta p)
      then (None, store p w)
      else (Some (Conflict name), w)
  end.

Definition tick (w : World) : Time * World :=
  (clock w,
   {| clock := clock w + 1;
      policies := policies w;
      enactments := enactments w;
      nodes := nodes w;
      listFault := listFault w;
      nodesFault := nodesFault w;
      rivals := rivals w |}).

#[export] Instance worldClock : Clock World := { Now := tick }.

#[export] Instance client : Client error string World := {
  Get := get;
  List_ := list_;
  NodesRunningNmstate := nodesRunningNmstate;
  StatusUpdate := statusUpdate
}.

(** *** A small cluster *)

Definition label : string := "nmstate.io/policy"%string.

Definition meta (name : string) (generation version : Z) : metav1.ObjectMeta :=
  {| metav1.Name := name; metav1.Namespace := ""%string;
     metav1.Labels := [(label, "vlan"%string)];
     metav1.Generation := generation; metav1.ResourceVersion := version |}.

Definition condition (t : nmstate.ConditionType) (s : corev1.ConditionStatus)
  (r : nmstate.ConditionReason) : nmstate.Condition :=
  {| nmstate.CondType := t; nmstate.Status := s; nmstate.Reason := r;
     nmstate.Message := ""%string;
     nmstate.LastHeartbeatTime := 0; nmstate.LastTransitionTime := 0 |}.

(** The report of node [name] for generation [generation] of the policy
    [vlan], with reason [r] on its [Available] condition. *)
Definition report (name : string) (generation : Z) (s : corev1.ConditionStatus)
  (r : nmstate.ConditionReason) : nmstatev1beta1.NodeNetworkConfigurationEnactment :=
  {| nmstatev1beta1.EnactmentMeta := meta name 1 1;
     nmstatev1beta1.EnactmentStatus :=
       {| nmstatev1beta1.DesiredState := ""%string;
          nmstatev1beta1.PolicyGeneration := generation;
          nmstatev1beta1.EnactmentConditions :=
            [condition nmstate.NodeNetworkConfigurationPolicyConditionAvailable s r] |} |}.

Definition configured (name : string) :=
  report name 2 corev1.ConditionTrue
    nmstate.NodeNetworkConfigurationPolicyConditionSuccessfullyConfigured.
Definition failing (name : string) :=
  report name 2 corev1.ConditionFalse
    nmstate.NodeNetworkConfigurationPolicyConditionFailedToConfigure.
Definition aborting (name : string) :=
  report name 2 corev1.ConditionFalse
    nmstate.NodeNetworkConfigurationEnactmentConditionConfigurationAborted.
Definition unmatched (name : string) :=
  report name 2 corev1.ConditionTrue
    nmstate.NodeNetworkConfigurationPolicyConditionConfigurationNoMatchingNode.

Definition node (name : string) : corev1.Node :=
  {| corev1.ObjectMeta := meta name 1 1 |}.

Definition vlan : Policy :=
  {| nmstatev1beta1.ObjectMeta := meta "vlan" 2 7;
     nmstatev1beta1.Spec := "interfaces: [eth1.102]"%string;
     nmstatev1beta1.Status := {| nmstatev1beta1.Conditions := [] |} |}.

Definition key : types.NamespacedName :=
  {| types.Namespace := ""%string; types.Name := "vlan"%string |}.

Definition cluster
  (es : list nmstatev1beta1.NodeNetworkConfigurationEnactment)
  (ns : list corev1.Node) (rs : list Rival) : World :=
  {| clock := 100; policies := [vlan]; enactments := es; nodes := ns;
     listFault := None; nodesFault := None; rivals := rs |}.

(** Some reconciliations: two of three nodes finished; four nodes
    finished, one failed and one aborted; a policy that matches neither
    of two nodes; three nodes configured; a rival that reports a failure
    and touches the policy before the first write; a policy that is
    gone; the nodes cannot be listed. *)
Definition filter : MatchingLabels := [(label, "vlan"%string)].

Definition brokenReports :=
  [configured "a"; failing "b"; aborting "c"; unmatched "d"].
Definition healthyReports := [configured "a"; configured "b"; configured "c"].

Definition threeNodes := [node "a"; node "b"; node "c"].
Definition fourNodes := [node "a"; node "b"; node "c"; node "d"].

Definition broken : World := cluster brokenReports fourNodes [].
Definition healthy : World := cluster healthyReports threeNodes [].

Definition rival : Rival :=
  {| reports := [failing "a"]; deletesPolicies := false |}.

Definition contested : World :=
  cluster [configured "a"] [node "a"] [rival].

Definition lost : World :=
  {| clock := 100; policies := []; enactments := []; nodes := threeNodes;
     listFault := None; nodesFault := None; rivals := [] |}.

Definition nodeless : World :=
  {| clock := 100; policies := [vlan]; enactments := healthyReports;
     nodes := threeNodes; listFault := None;
     nodesFault := Some (Unavailable "pods"); rivals := [] |}.

(** A rival that deletes the policy before the write. *)
Definition vanishing : World :=
  cluster [configured "a"] [node "a"]
    [ {| reports := []; deletesPolicies := true |} ].

(** Six rivals in a row: every write of one reconciliation is
    rejected. *)
Definition besieged : World :=
  cluster [configured "a"] [node "a"] [rival; rival; rival; rival; rival; rival].

(** The enactments cannot be listed. *)
Definition listless : World :=
  {| clock := 100; policies := [vlan]; enactments := healthyReports;
     nodes := threeNodes; listFault := Some (Unavailable "enactments");
     nodesFault := None; rivals := [] |}.

(** A list of conditions left by earlier reconciliations, with a
    condition of a third type. *)
Definition stale : nmstate.ConditionList :=
  [ condition "Reviewed"%string corev1.ConditionTrue "Audit"%string;
    condition nmstate.NodeNetworkConfigurationPolicyConditionAvailable
      corev1.ConditionFalse
      nmstate.NodeNetworkConfigurationPolicyConditionFailedToConfigure ].

(** The healthy cluster again, its policy carrying [stale] conditions. *)
Definition vlanStale : Policy :=
  {| nmstatev1beta1.ObjectMeta := meta "vlan" 2 7;
     nmstatev1beta1.Spec := "interfaces: [eth1.102]"%string;
     nmstatev1beta1.Status := {| nmstatev1beta1.Conditions := stale |} |}.

Definition healthyStale : World :=
  {| clock := 500; policies := [vlanStale]; enactments := healthyReports;
     nodes := threeNodes; listFault := None; nodesFault := None;
     rivals := [] |}.

(** The policy carries [stale] conditions and a rival touches it before
    the first write. *)
Definition contestedStale : World :=
  {| clock := 500; policies := [vlanStale]; enactments := healthyReports;
     nodes := threeNodes; listFault := None; nodesFault := None;
     rivals := [rival] |}.


(** [Update] and [Reset] against this client, with the counter of the
    specification. *)
Definition update (w : World) : Run error string World (option error) :=
  Update enactmentconditions.Count label key w.

Definition reset (w : World) : Run error string World (option error) :=
  Reset key w.

End fake.

(** ** A client with failing reads

    The in-memory client behind a connection that answers the next [Get]s
    with the errors scheduled, one each, before it lets them through. *)

Module flaky.

Record World : Type := {
  getFaults : list fake.error;
  inner : fake.World
}.

Definition lift {A : Type} (call : fake.World -> A * fake.World) (w : World)
  : A * World :=
  (fst (call (inner w)),
   {| getFaults := getFaults w; inner := snd (call (inner w)) |}).

Definition get (key : types.NamespacedName) (w : World)
  : result fake.error fake.Policy * World :=
  match getFaults w with
  | e :: rest => (Err e, {| getFaults := rest; inner := inner w |})
  | [] => lift (fake.get key) w
  end.

#[export] Instance worldClock : Clock World := { Now := lift fake.tick }.

#[export] Instance client : Client fake.error string World := {
  Get := get;
  List_ := fun filter => lift (fake.list_ filter);
  NodesRunningNmstate := lift fake.nodesRunningNmstate;
  StatusUpdate := fun policy => lift (fake.statusUpdate policy)
}.

(** The healthy cluster; the first [Get] is answered with a conflict. *)
Definition hiccup : World :=
  {| getFaults := [fake.Conflict "vlan"]; inner := fake.healthy |}.

End flaky.

(** ** Vocabulary of the statements *)

(** The list holds a condition of type [t] (the first one of that type)
    with this status, reason and message. *)
Definition conditionIs (conditions : nmstate.ConditionList)
  (t : nmstate.ConditionType) (status : corev1.ConditionStatus)
  (reason : nmstate.ConditionReason) (message : string) : Prop :=
  exists c,
    nmstate.ConditionList_Find conditions t = Some c /\
    nmstate.Status c = status /\
    nmstate.Reason c = reason /\
    nmstate.Message c = message.

(** An enactment reports on generation [g] of its policy. *)
Definition current (g : Z) (e : nmstatev1beta1.NodeNetworkConfigurationEnactment)
  : bool :=
  nmstatev1beta1.PolicyGeneration (nmstatev1beta1.EnactmentStatus e) =? g.

(** The message, reason and status of the condition of type [t]. *)
Definition messageOf (conditions : nmstate.ConditionList)
  (t : nmstate.ConditionType) : option string :=
  option_map nmstate.Message (nmstate.ConditionList_Find conditions t).

Definition reasonOf (conditions : nmstate.ConditionList)
  (t : nmstate.ConditionType) : option nmstate.ConditionReason :=
  option_map nmstate.Reason (nmstate.ConditionList_Find conditions t).

Definition statusOf (conditions : nmstate.ConditionList)
  (t : nmstate.ConditionType) : option corev1.ConditionStatus :=
  option_map nmstate.Status (nmstate.ConditionList_Find conditions t).

(** Two lists give the same verdict: the same status, reason and message
    on [Degraded] and on [Available]. *)
Definition sameVerdict (conditions conditions' : nmstate.ConditionList) : Prop :=
  forall t,
    t = nmstate.NodeNetworkConfigurationPolicyConditionDegraded \/
    t = nmstate.NodeNetworkConfigurationPolicyConditionAvailable ->
    statusOf conditions t = statusOf conditions' t /\
    reasonOf conditions t = reasonOf conditions' t /\
    messageOf conditions t = messageOf conditions' t.

(** The two readings of the clock a setter makes from the world [w], and
    the world after them. *)
Definition firstReading {W : Type} `{Clock W} (w : W) : Time := fst (Now w).
Definition secondReading {W : Type} `{Clock W} (w : W) : Time :=
  fst (Now (snd (Now w))).
Definition afterReadings {W : Type} `{Clock W} (w : W) : W :=
  snd (Now (snd (Now w))).

Definition policyConditions {PolicySpec : Type}
  (policy : nmstatev1beta1.NodeNetworkConfigurationPolicy PolicySpec)
  : nmstate.ConditionList :=
  nmstatev1beta1.Conditions (nmstatev1beta1.Status policy).

Definition isGet {error PolicySpec : Type} (ev : Event error PolicySpec) : bool :=
  match ev with EvGet _ _ => true | _ => false end.

Definition isWrite {error PolicySpec : Type} (ev : Event error PolicySpec) : bool :=
  match ev with EvStatusUpdate _ _ => true | _ => false end.

(** A fetch that failed: of the policy, of its enactments, of the nodes. *)
Definition isFailedFetch {error PolicySpec : Type} (ev : Event error PolicySpec)
  : bool :=
  match ev with
  | EvGet _ (Err _) | EvList _ (Err _) | EvNodes (Err _) => true
  | _ => false
  end.

(** A write the store accepted. *)
Definition isPersisted {error PolicySpec : Type} (ev : Event error PolicySpec)
  : bool :=
  match ev with EvStatusUpdate _ None => true | _ => false end.

Section Vocabulary.

Context {error PolicySpec W : Type}.
Context `{ApiErrors error}.

Variable Count :
  list nmstatev1beta1.NodeNetworkConfigurationEnactment -> Z ->
  enactmentconditions.EnactmentCount.
Variable EnactmentPolicyLabel : string.

Local Abbreviation Policy := (nmstatev1beta1.NodeNetworkConfigurationPolicy PolicySpec).

(** The tally of one attempt of [Update], from what it fetched. *)
Definition countOf (policy : Policy)
  (enactments : list nmstatev1beta1.NodeNetworkConfigurationEnactment)
  : enactmentconditions.EnactmentCount :=
  Count enactments (metav1.Generation (nmstatev1beta1.ObjectMeta policy)).

(** The policy an attempt of [Update] writes when it fetched [policy],
    [enactments] and [nodes] and the clock read [ta], then [tb]. *)
Definition persisted (policy : Policy)
  (enactments : list nmstatev1beta1.NodeNetworkConfigurationEnactment)
  (nodes : list corev1.Node) (ta tb : Time) : Policy :=
  nmstatev1beta1.withConditions
    (conditionsAt ta tb (countOf policy enactments) (len nodes)
       (policyConditions policy))
    policy.

(** The calls of one attempt of [Update] that got as far as the write,
    without the write. *)
Definition fetched (key : types.NamespacedName) (policy : Policy)
  (enactments : list nmstatev1beta1.NodeNetworkConfigurationEnactment)
  (nodes : list corev1.Node) (ta tb : Time) : list (Event error PolicySpec) :=
  [ EvGet key (Ok policy);
    EvList (policyLabelFilter EnactmentPolicyLabel policy) (Ok enactments);
    EvNodes (Ok nodes);
    EvNow ta;
    EvNow tb ].

(** The calls and the value of one attempt of [Update]: it stops at the
    first failing fetch, or fetches everything and writes. *)
Inductive UpdateAttempt (key : types.NamespacedName)
  : list (Event error PolicySpec) -> option error -> Prop :=
| update_no_policy e :
    UpdateAttempt key
      [EvGet key (Err e)]
      (Some (Wrap e "getting policy failed"))
| update_no_enactments policy e :
    UpdateAttempt key
      [EvGet key (Ok policy);
       EvList (policyLabelFilter EnactmentPolicyLabel policy) (Err e)]
      (Some (Wrap e "getting enactments failed"))
| update_no_nodes policy enactments e :
    UpdateAttempt key
      [EvGet key (Ok policy);
       EvList (policyLabelFilter EnactmentPolicyLabel policy) (Ok enactments);
       EvNodes (Err e)]
      (Some (Wrap e "getting nodes running kubernets-nmstate pods failed"))
| update_write policy enactments nodes ta tb r :
    UpdateAttempt key
      (fetched key policy enactments nodes ta tb
         ++ [EvStatusUpdate (persisted policy enactments nodes ta tb) r])
      r.

(** The same for [Reset]. *)
Inductive ResetAttempt (key : types.NamespacedName)
  : list (Event error PolicySpec) -> option error -> Prop :=
| reset_no_policy e :
    ResetAttempt key
      [EvGet key (Err e)]
      (Some (Wrap e "getting policy failed"))
| reset_write policy r :
    ResetAttempt key
      [EvGet key (Ok policy);
       EvStatusUpdate (nmstatev1beta1.withConditions [] policy) r]
      r.

(** What the two closures have in common: an attempt starts with its one
    [Get], and a write, if there is one, is its last call and gives the
    attempt its value. *)
Definition attemptLike (a : Run error PolicySpec W (option error)) : Prop :=
  (exists k x rest,
      events a = EvGet k x :: rest /\ Forall (fun ev => isGet ev = false) rest) /\
  (forall before q r after,
      events a = before ++ EvStatusUpdate q r :: after ->
      after = [] /\ value a = r).

(** The attempts [retry.OnError] makes from the world [w], one run of
    [fn] each. *)
Fixpoint attempts (steps : nat) (retriable : error -> bool)
  (fn : M error PolicySpec W (option error)) (w : W)
  : list (Run error PolicySpec W (option error)) :=
  match steps with
  | O => []
  | S steps' =>
      let a := fn w in
      a :: match value a with
           | None => []
           | Some e =>
               if retriable e then attempts steps' retriable fn (final a)
               else []
           end
  end.

(** The loop stopped after the call that follows [pre]: nothing was
    called after it, the run returned [err], and no write before it had
    been accepted by the store. *)
Definition stopsWith (run : Run error PolicySpec W (option error))
  (pre post : list (Event error PolicySpec)) (err : error) : Prop :=
  post = [] /\
  value run = Some err /\
  Forall (fun ev => isPersisted ev = false) pre.

(** The error an attempt returns when the fetch [ev] fails: the error of
    the fetch, wrapped with its context. *)
Definition fetchError (ev : Event error PolicySpec) : option error :=
  match ev with
  | EvGet _ (Err e) => Some (Wrap e "getting policy failed")
  | EvList _ (Err e) => Some (Wrap e "getting enactments failed")
  | EvNodes (Err e) =>
      Some (Wrap e "getting nodes running kubernets-nmstate pods failed")
  | _ => None
  end.

(** The calls of a list of attempts, in order. *)
Definition callsOf (l : list (Run error PolicySpec W (option error)))
  : list (Event error PolicySpec) :=
  List.concat (map events l).

End Vocabulary.

(** * Properties *)

(** ** Arithmetic of [int] *)

Lemma wrap_exact (z : Z) : in_int z -> wrap z = z.
Proof.
  unfold in_int, wrap. intros Hz.
  rewrite Z.mod_small; lia.
Qed.

Lemma wrap_add_l (x y : Z) : wrap (wrap x + y) = wrap (x + y).
Proof.
  unfold wrap. f_equal.
  replace ((x + 2 ^ 63) mod 2 ^ 64 - 2 ^ 63 + y + 2 ^ 63)
    with ((x + 2 ^ 63) mod 2 ^ 64 + y) by lia.
  rewrite Zplus_mod_idemp_l. f_equal. lia.
Qed.

(** While the true sum fits an [int], the code's sum of the four buckets
    is that sum. *)
Lemma numberOfFinishedEnactments_sum (c : enactmentconditions.EnactmentCount) :
  in_int (enactmentconditions.Available c + enactmentconditions.Failed c
          + enactmentconditions.NotMatching c + enactmentconditions.Aborted c) ->
  numberOfFinishedEnactments c =
  enactmentconditions.Available c + enactmentconditions.Failed c
  + enactmentconditions.NotMatching c + enactmentconditions.Aborted c.
Proof.
  intros Hsum. unfold numberOfFinishedEnactments, int_add.
  rewrite wrap_add_l, <- Z.add_assoc, wrap_add_l, Z.add_assoc.
  now apply wrap_exact.
Qed.


(** ** The counter of the specification *)

Module CountFacts.

Import enactmentconditions.

(** A report for another generation of the policy is invisible. *)
Lemma Count_stale e es g :
  nmstatev1beta1.PolicyGeneration (nmstatev1beta1.EnactmentStatus e) <> g ->
  Count (e :: es) g = Count es g.
Proof.
  intros Hg. simpl.
  destruct (Z.eqb_spec
              (nmstatev1beta1.PolicyGeneration (nmstatev1beta1.EnactmentStatus e)) g);
    [contradiction | reflexivity].
Qed.

Lemma Count_current es g : Count es g = Count (filter (current g) es) g.
Proof.
  induction es as [|e es IH]; simpl; [reflexivity|].
  unfold current at 1.
  destruct (nmstatev1beta1.PolicyGeneration (nmstatev1beta1.EnactmentStatus e) =? g)
    eqn:Hg; simpl.
  - unfold current in Hg |- *. rewrite Hg. now rewrite IH.
  - exact IH.
Qed.

(** The buckets are counts: none is negative, every current report is in
    exactly one of them, and together they never exceed the number of
    reports, so that no addition wraps. *)
Lemma Count_buckets es g :
  len es < 2 ^ 63 ->
  let c := Count es g in
  0 <= Available c /\ 0 <= Failed c /\ 0 <= NotMatching c /\
  0 <= Aborted c /\ 0 <= Progressing c /\
  Available c + Failed c + NotMatching c + Aborted c + Progressing c
  = len (filter (current g) es) /\
  Matching c = Available c + Failed c + Aborted c + Progressing c.
Proof.
  unfold len. induction es as [|e es IH]; intros Hlen.
  - simpl. lia.
  - assert (Hes : Z.of_nat (List.length es) < 2 ^ 63)
      by (cbn [List.length] in Hlen; lia).
    specialize (IH Hes). cbv zeta in IH.
    destruct IH as (Ha & Hf & Hn & Hb & Hp & Hsum & Hm).
    assert (Hfil : Z.of_nat (List.length (filter (current g) es))
                   <= Z.of_nat (List.length es))
      by (apply Nat2Z.inj_le, filter_length_le).
    cbn [List.length] in Hlen. rewrite Nat2Z.inj_succ in Hlen.
    cbv zeta. cbn [Count filter]. unfold current at 1.
    destruct (nmstatev1beta1.PolicyGeneration (nmstatev1beta1.EnactmentStatus e) =? g).
    + cbn [List.length]. rewrite Nat2Z.inj_succ.
      destruct (classify e);
        cbn [tally Available Failed NotMatching Aborted Matching Progressing];
        unfold int_add;
        rewrite ?wrap_exact by (unfold in_int; lia); lia.
    + repeat split; assumption.
Qed.

Lemma Count_finished es g :
  len es < 2 ^ 63 ->
  let c := Count es g in
  numberOfFinishedEnactments c
  = Available c + Failed c + NotMatching c + Aborted c.
Proof.
  intros Hlen c. apply numberOfFinishedEnactments_sum.
  destruct (Count_buckets es g Hlen) as (Ha & Hf & Hn & Hb & Hp & Hsum & _).
  fold c in Ha, Hf, Hn, Hb, Hp, Hsum.
  assert (Hfil : len (filter (current g) es) <= len es)
    by (apply Nat2Z.inj_le, filter_length_le).
  unfold in_int. lia.
Qed.

End CountFacts.

(** ** Condition lists *)

Lemma Degraded_not_Available :
  nmstate.NodeNetworkConfigurationPolicyConditionDegraded
  <> nmstate.NodeNetworkConfigurationPolicyConditionAvailable.
Proof. discriminate. Qed.

(** [Set] leaves the condition it was asked for. *)
Lemma Find_Set_same now conditions t status reason message :
  conditionIs
    (nmstate.ConditionList_Set now conditions t status reason message)
    t status reason message.
Proof.
  unfold conditionIs.
  induction conditions as [|c rest IH]; simpl.
  - rewrite String.eqb_refl. eexists. repeat split.
  - destruct (String.eqb (nmstate.CondType c) t) eqn:Hc; simpl.
    + rewrite Hc. eexists. repeat split.
    + rewrite Hc. exact IH.
Qed.

(** [Set] touches no condition of another type. *)
Lemma Find_Set_other now conditions t t' status reason message :
  t' <> t ->
  nmstate.ConditionList_Find
    (nmstate.ConditionList_Set now conditions t status reason message) t'
  = nmstate.ConditionList_Find conditions t'.
Proof.
  intros Ht. induction conditions as [|c rest IH]; simpl.
  - destruct (String.eqb_spec t t'); [congruence | reflexivity].
  - destruct (String.eqb (nmstate.CondType c) t) eqn:Hc; simpl.
    + apply String.eqb_eq in Hc.
      destruct (String.eqb_spec (nmstate.CondType c) t'); [congruence | reflexivity].
    + destruct (String.eqb (nmstate.CondType c) t'); [reflexivity | exact IH].
Qed.

(** The two calls every setter makes: [Degraded] first, then [Available]. *)
Lemma Set_Degraded_Available ta tb conditions s1 r1 m1 s2 r2 m2 :
  let conditions' :=
    nmstate.ConditionList_Set tb
      (nmstate.ConditionList_Set ta conditions
         nmstate.NodeNetworkConfigurationPolicyConditionDegraded s1 r1 m1)
      nmstate.NodeNetworkConfigurationPolicyConditionAvailable s2 r2 m2 in
  conditionIs conditions'
    nmstate.NodeNetworkConfigurationPolicyConditionDegraded s1 r1 m1 /\
  conditionIs conditions'
    nmstate.NodeNetworkConfigurationPolicyConditionAvailable s2 r2 m2.
Proof.
  cbv zeta. split.
  - unfold conditionIs.
    rewrite Find_Set_other by exact Degraded_not_Available.
    apply Find_Set_same.
  - apply Find_Set_same.
Qed.

(** ** The setters *)

Section Setters.

Context {error PolicySpec W : Type} `{Clock W}.

Local Abbreviation M := (M error PolicySpec W).

Lemma SetPolicyProgressing_run conditions message (w : W) :
  SetPolicyProgressing (error := error) (PolicySpec := PolicySpec)
    conditions message w =
  {| value :=
       nmstate.ConditionList_Set (secondReading w)
         (nmstate.ConditionList_Set (firstReading w) conditions
            nmstate.NodeNetworkConfigurationPolicyConditionDegraded
            corev1.ConditionUnknown
            nmstate.NodeNetworkConfigurationPolicyConditionConfigurationProgressing
            "")
         nmstate.NodeNetworkConfigurationPolicyConditionAvailable
         corev1.ConditionUnknown
         nmstate.NodeNetworkConfigurationPolicyConditionConfigurationProgressing
         message;
     final := afterReadings w;
     events := [EvNow (firstReading w); EvNow (secondReading w)] |}.
Proof. reflexivity. Qed.

Lemma SetPolicySuccess_run conditions message (w : W) :
  SetPolicySuccess (error := error) (PolicySpec := PolicySpec)
    conditions message w =
  {| value :=
       nmstate.ConditionList_Set (secondReading w)
         (nmstate.ConditionList_Set (firstReading w) conditions
            nmstate.NodeNetworkConfigurationPolicyConditionDegraded
            corev1.ConditionFalse
            nmstate.NodeNetworkConfigurationPolicyConditionSuccessfullyConfigured
            "")
         nmstate.NodeNetworkConfigurationPolicyConditionAvailable
         corev1.ConditionTrue
         nmstate.NodeNetworkConfigurationPolicyConditionSuccessfullyConfigured
         message;
     final := afterReadings w;
     events := [EvNow (firstReading w); EvNow (secondReading w)] |}.
Proof. reflexivity. Qed.

Lemma SetPolicyNotMatching_run conditions message (w : W) :
  SetPolicyNotMatching (error := error) (PolicySpec := PolicySpec)
    conditions message w =
  {| value :=
       nmstate.ConditionList_Set (secondReading w)
         (nmstate.ConditionList_Set (firstReading w) conditions
            nmstate.NodeNetworkConfigurationPolicyConditionDegraded
            corev1.ConditionFalse
            nmstate.NodeNetworkConfigurationPolicyConditionConfigurationNoMatchingNode
            message)
         nmstate.NodeNetworkConfigurationPolicyConditionAvailable
         corev1.ConditionTrue
         nmstate.NodeNetworkConfigurationPolicyConditionConfigurationNoMatchingNode
         message;
     final := afterReadings w;
     events := [EvNow (firstReading w); EvNow (secondReading w)] |}.
Proof. reflexivity. Qed.

Lemma SetPolicyFailedToConfigure_run conditions message (w : W) :
  SetPolicyFailedToConfigure (error := error) (PolicySpec := PolicySpec)
    conditions message w =
  {| value :=
       nmstate.ConditionList_Set (secondReading w)
         (nmstate.ConditionList_Set (firstReading w) conditions
            nmstate.NodeNetworkConfigurationPolicyConditionDegraded
            corev1.ConditionTrue
            nmstate.NodeNetworkConfigurationPolicyConditionFailedToConfigure
            message)
         nmstate.NodeNetworkConfigurationPolicyConditionAvailable
         corev1.ConditionFalse
         nmstate.NodeNetworkConfigurationPolicyConditionFailedToConfigure
         "";
     final := afterReadings w;
     events := [EvNow (firstReading w); EvNow (secondReading w)] |}.
Proof. reflexivity. Qed.

(** Whatever clock the decision runs against, it reads it twice and
    computes what [conditionsAt] says for those two readings. *)
Lemma setPolicyConditions_run enactmentsCount numberOfNmstateNodes conditions (w : W) :
  setPolicyConditions (error := error) (PolicySpec := PolicySpec)
    enactmentsCount numberOfNmstateNodes conditions w =
  {| value :=
       conditionsAt (firstReading w) (secondReading w)
         enactmentsCount numberOfNmstateNodes conditions;
     final := afterReadings w;
     events := [EvNow (firstReading w); EvNow (secondReading w)] |}.
Proof.
  unfold conditionsAt, setPolicyConditions.
  destruct (numberOfFinishedEnactments enactmentsCount <? numberOfNmstateNodes);
    [reflexivity|].
  destruct (enactmentconditions.Matching enactmentsCount =? 0); [reflexivity|].
  destruct ((0 <? enactmentconditions.Failed enactmentsCount)
            || (0 <? enactmentconditions.Aborted enactmentsCount))%bool;
    reflexivity.
Qed.

End Setters.

Lemma conditionIs_projections conditions t s r m :
  conditionIs conditions t s r m ->
  statusOf conditions t = Some s /\
  reasonOf conditions t = Some r /\
  messageOf conditions t = Some m.
Proof.
  intros (c & Hc & <- & <- & <-).
  unfold statusOf, reasonOf, messageOf. rewrite Hc. repeat split.
Qed.

Section SetterClaims.

Context {error PolicySpec W : Type} `{Clock W}.

Local Abbreviation Degraded := nmstate.NodeNetworkConfigurationPolicyConditionDegraded.
Local Abbreviation Available := nmstate.NodeNetworkConfigurationPolicyConditionAvailable.

Local Ltac setter run :=
  rewrite (run error PolicySpec W _); cbn [value];
  match goal with
  | |- context [nmstate.ConditionList_Set ?tb
                  (nmstate.ConditionList_Set ?ta ?l _ ?s1 ?r1 ?m1) _ ?s2 ?r2 ?m2] =>
      destruct (Set_Degraded_Available ta tb l s1 r1 m1 s2 r2 m2) as [Hd Ha];
      apply conditionIs_projections in Hd, Ha;
      destruct Hd as (_ & Hdr & Hdm), Ha as (_ & Har & Ham)
  end.

(** C9.  The message sits on one condition or the other: after
    [SetPolicyProgressing] and [SetPolicySuccess] the [Degraded] message
    is empty and the [Available] one is the message given; after
    [SetPolicyFailedToConfigure] it is the other way round; after
    [SetPolicyNotMatching] both carry the message. *)
Theorem SetPolicy_message_placement conditions message (w : W) :
  let progressing :=
    value (SetPolicyProgressing (error := error) (PolicySpec := PolicySpec)
             conditions message w) in
  let success :=
    value (SetPolicySuccess (error := error) (PolicySpec := PolicySpec)
             conditions message w) in
  let failed :=
    value (SetPolicyFailedToConfigure (error := error) (PolicySpec := PolicySpec)
             conditions message w) in
  let notMatching :=
    value (SetPolicyNotMatching (error := error) (PolicySpec := PolicySpec)
             conditions message w) in
  (messageOf progressing Degraded = Some ""%string /\
   messageOf progressing Available = Some message) /\
  (messageOf success Degraded = Some ""%string /\
   messageOf success Available = Some message) /\
  (messageOf failed Degraded = Some message /\
   messageOf failed Available = Some ""%string) /\
  (messageOf notMatching Degraded = Some message /\
   messageOf notMatching Available = Some message).
Proof.
  cbv zeta. repeat split.
  1,2: setter @SetPolicyProgressing_run; assumption.
  1,2: setter @SetPolicySuccess_run; assumption.
  1,2: setter @SetPolicyFailedToConfigure_run; assumption.
  1,2: setter @SetPolicyNotMatching_run; assumption.
Qed.

(** C10.  After each of the four setters the [Degraded] and the
    [Available] condition carry the same reason: the one the setter is
    named after. *)
Theorem SetPolicy_reasons_agree conditions message (w : W) :
  let progressing :=
    value (SetPolicyProgressing (error := error) (PolicySpec := PolicySpec)
             conditions message w) in
  let success :=
    value (SetPolicySuccess (error := error) (PolicySpec := PolicySpec)
             conditions message w) in
  let notMatching :=
    value (SetPolicyNotMatching (error := error) (PolicySpec := PolicySpec)
             conditions message w) in
  let failed :=
    value (SetPolicyFailedToConfigure (error := error) (PolicySpec := PolicySpec)
             conditions message w) in
  (reasonOf progressing Degraded
     = Some nmstate.NodeNetworkConfigurationPolicyConditionConfigurationProgressing /\
   reasonOf progressing Available
     = Some nmstate.NodeNetworkConfigurationPolicyConditionConfigurationProgressing) /\
  (reasonOf success Degraded
     = Some nmstate.NodeNetworkConfigurationPolicyConditionSuccessfullyConfigured /\
   reasonOf success Available
     = Some nmstate.NodeNetworkConfigurationPolicyConditionSuccessfullyConfigured) /\
  (reasonOf notMatching Degraded
     = Some nmstate.NodeNetworkConfigurationPolicyConditionConfigurationNoMatchingNode /\
   reasonOf notMatching Available
     = Some nmstate.NodeNetworkConfigurationPolicyConditionConfigurationNoMatchingNode) /\
  (reasonOf failed Degraded
     = Some nmstate.NodeNetworkConfigurationPolicyConditionFailedToConfigure /\
   reasonOf failed Available
     = Some nmstate.NodeNetworkConfigurationPolicyConditionFailedToConfigure).
Proof.
  cbv zeta. repeat split.
  1,2: setter @SetPolicyProgressing_run; assumption.
  1,2: setter @SetPolicySuccess_run; assumption.
  1,2: setter @SetPolicyNotMatching_run; assumption.
  1,2: setter @SetPolicyFailedToConfigure_run; assumption.
Qed.

End SetterClaims.

(** ** The decision *)

Section Decision.

Variables ta tb : Time.
Variable c : enactmentconditions.EnactmentCount.
Variable n : Z.
Variable conditions : nmstate.ConditionList.

Local Abbreviation Degraded := nmstate.NodeNetworkConfigurationPolicyConditionDegraded.
Local Abbreviation Available := nmstate.NodeNetworkConfigurationPolicyConditionAvailable.

(** Still converging: fewer finished enactments than nodes. *)
Lemma conditionsAt_progressing :
  numberOfFinishedEnactments c < n ->
  conditionIs (conditionsAt ta tb c n conditions) Degraded
    corev1.ConditionUnknown
    nmstate.NodeNetworkConfigurationPolicyConditionConfigurationProgressing
    "" /\
  conditionIs (conditionsAt ta tb c n conditions) Available
    corev1.ConditionUnknown
    nmstate.NodeNetworkConfigurationPolicyConditionConfigurationProgressing
    (progressingMessage (numberOfFinishedEnactments c) n).
Proof.
  intros Hlt. apply Z.ltb_lt in Hlt.
  unfold conditionsAt, setPolicyConditions. rewrite Hlt.
  rewrite SetPolicyProgressing_run. cbn [value].
  apply Set_Degraded_Available.
Qed.

Lemma conditionsAt_notMatching :
  n <= numberOfFinishedEnactments c ->
  enactmentconditions.Matching c = 0 ->
  conditionIs (conditionsAt ta tb c n conditions) Degraded
    corev1.ConditionFalse
    nmstate.NodeNetworkConfigurationPolicyConditionConfigurationNoMatchingNode
    "Policy does not match any node" /\
  conditionIs (conditionsAt ta tb c n conditions) Available
    corev1.ConditionTrue
    nmstate.NodeNetworkConfigurationPolicyConditionConfigurationNoMatchingNode
    "Policy does not match any node".
Proof.
  intros Hge Hm. apply Z.ltb_ge in Hge.
  unfold conditionsAt, setPolicyConditions. rewrite Hge, Hm.
  cbn [Z.eqb]. cbv zeta.
  rewrite SetPolicyNotMatching_run. cbn [value].
  apply Set_Degraded_Available.
Qed.

Lemma conditionsAt_failed :
  n <= numberOfFinishedEnactments c ->
  enactmentconditions.Matching c <> 0 ->
  0 < enactmentconditions.Failed c \/ 0 < enactmentconditions.Aborted c ->
  conditionIs (conditionsAt ta tb c n conditions) Degraded
    corev1.ConditionTrue
    nmstate.NodeNetworkConfigurationPolicyConditionFailedToConfigure
    (if 0 <? enactmentconditions.Aborted c
     then (failedMessage (enactmentconditions.Failed c)
             (enactmentconditions.Matching c)
           ++ abortedClause (enactmentconditions.Aborted c))%string
     else failedMessage (enactmentconditions.Failed c)
            (enactmentconditions.Matching c)) /\
  conditionIs (conditionsAt ta tb c n conditions) Available
    corev1.ConditionFalse
    nmstate.NodeNetworkConfigurationPolicyConditionFailedToConfigure
    "".
Proof.
  intros Hge Hm Hfa. apply Z.ltb_ge in Hge. apply Z.eqb_neq in Hm.
  assert (Hor : ((0 <? enactmentconditions.Failed c)
                 || (0 <? enactmentconditions.Aborted c))%bool = true).
  { apply orb_true_iff. destruct Hfa as [Hf | Ha]; [left | right];
      now apply Z.ltb_lt. }
  unfold conditionsAt, setPolicyConditions. rewrite Hge, Hm, Hor.
  cbv zeta.
  rewrite SetPolicyFailedToConfigure_run. cbn [value].
  apply Set_Degraded_Available.
Qed.

Lemma conditionsAt_success :
  n <= numberOfFinishedEnactments c ->
  enactmentconditions.Matching c <> 0 ->
  enactmentconditions.Failed c <= 0 ->
  enactmentconditions.Aborted c <= 0 ->
  conditionIs (conditionsAt ta tb c n conditions) Degraded
    corev1.ConditionFalse
    nmstate.NodeNetworkConfigurationPolicyConditionSuccessfullyConfigured
    "" /\
  conditionIs (conditionsAt ta tb c n conditions) Available
    corev1.ConditionTrue
    nmstate.NodeNetworkConfigurationPolicyConditionSuccessfullyConfigured
    (successMessage (enactmentconditions.Available c)).
Proof.
  intros Hge Hm Hf Ha. apply Z.ltb_ge in Hge. apply Z.eqb_neq in Hm.
  apply Z.ltb_ge in Hf, Ha.
  unfold conditionsAt, setPolicyConditions. rewrite Hge, Hm, Hf, Ha.
  cbn [orb]. cbv zeta.
  rewrite SetPolicySuccess_run. cbn [value].
  apply Set_Degraded_Available.
Qed.

End Decision.

(** ** Lists of calls *)

Lemma cons_eq_app {A : Type} (x y : A) (l before after : list A) :
  x :: l = before ++ y :: after ->
  (before = [] /\ x = y /\ l = after) \/
  (exists before', before = x :: before' /\ l = before' ++ y :: after).
Proof.
  destruct before as [|b before]; cbn [app]; intros Heq; injection Heq as -> ->.
  - left. repeat split.
  - right. eexists. split; reflexivity.
Qed.

(** The last element of a list that has one does not depend on the
    default. *)
Lemma last_nonempty {A : Type} (x : A) (l : list A) (d d' : A) :
  List.last (x :: l) d = List.last (x :: l) d'.
Proof.
  revert x. induction l as [|y l IH]; intros x; [reflexivity|].
  change (List.last (y :: l) d = List.last (y :: l) d'). apply IH.
Qed.

(** An element of a concatenation sits in one of the pieces. *)
Lemma concat_locate {A : Type} (pieces : list (list A)) (pre post : list A) (x : A) :
  List.concat pieces = pre ++ x :: post ->
  exists before piece after p q,
    pieces = before ++ piece :: after /\
    piece = p ++ x :: q /\
    pre = List.concat before ++ p /\
    post = q ++ List.concat after.
Proof.
  revert pre. induction pieces as [|piece pieces IH]; intros pre Heq.
  - destruct pre; discriminate Heq.
  - cbn [List.concat] in Heq. apply app_eq_app in Heq.
    destruct Heq as (l & [[Hpiece Hrest] | [Hpre Hrest]]).
    + destruct l as [|y l].
      * rewrite app_nil_r in Hpiece. subst piece. cbn [app] in Hrest.
        destruct (IH [] (eq_sym Hrest)) as (before & pc & after & p & q & H1 & H2 & H3 & H4).
        exists (pre :: before), pc, after, p, q.
        subst pieces. repeat split; try assumption.
        cbn [List.concat]. rewrite <- app_assoc, <- H3, app_nil_r. reflexivity.
      * cbn [app] in Hrest. injection Hrest as <- ->.
        exists [], piece, pieces, pre, l. repeat split. exact Hpiece.
    + destruct (IH l Hrest) as (before & pc & after & p & q & H1 & H2 & H3 & H4).
      exists (piece :: before), pc, after, p, q.
      subst pieces. repeat split; try assumption.
      cbn [List.concat]. rewrite <- app_assoc, <- H3. exact Hpre.
Qed.

(** ** The retry loop *)

Section RetryFacts.

Context {error PolicySpec W : Type}.
Variable retriable : error -> bool.
Variable fn : M error PolicySpec W (option error).

Local Abbreviation OnError := (retry.OnError (W := W) (PolicySpec := PolicySpec)).

(** The calls of the loop are those of its attempts, one after the
    other. *)
Lemma OnError_events steps lastErr w :
  events (OnError steps retriable fn lastErr w)
  = List.concat (map events (attempts steps retriable fn w)).
Proof.
  revert lastErr w. induction steps as [|steps IH]; intros lastErr w.
  - reflexivity.
  - cbn [retry.OnError attempts]. unfold bind at 1. cbn [events value final].
    destruct (value (fn w)) as [e|].
    + destruct (retriable e).
      * rewrite IH. reflexivity.
      * cbn. now rewrite app_nil_r.
    + cbn. now rewrite app_nil_r.
Qed.

(** The loop returns what its last attempt returned. *)
Lemma OnError_value steps lastErr w :
  value (OnError steps retriable fn lastErr w)
  = List.last (map value (attempts steps retriable fn w)) lastErr.
Proof.
  revert lastErr w. induction steps as [|steps IH]; intros lastErr w.
  - reflexivity.
  - cbn [retry.OnError attempts]. unfold bind at 1. cbn [events value final].
    destruct (value (fn w)) as [e|] eqn:Hv.
    + destruct (retriable e) eqn:He.
      * rewrite IH. cbn [map].
        destruct (attempts steps retriable fn (final (fn w))) as [|a l] eqn:Ha.
        -- cbn. now rewrite Hv.
        -- cbn [map].
           rewrite (last_nonempty (value a) (map value l) (Some e) lastErr).
           reflexivity.
      * cbn. now rewrite Hv.
    + cbn. now rewrite Hv.
Qed.

Lemma attempts_length steps w :
  (List.length (attempts steps retriable fn w) <= steps)%nat.
Proof.
  revert w. induction steps as [|steps IH]; intros w; cbn [attempts List.length].
  - lia.
  - destruct (value (fn w)) as [e|]; [destruct (retriable e)|];
      cbn [List.length]; try lia.
    specialize (IH (final (fn w))). lia.
Qed.

(** Each attempt is a run of [fn] from some state of the world. *)
Lemma attempts_runs steps w a :
  In a (attempts steps retriable fn w) -> exists w', a = fn w'.
Proof.
  revert w. induction steps as [|steps IH]; intros w; cbn [attempts].
  - intros [].
  - intros [<- | Hin]; [now exists w|].
    destruct (value (fn w)) as [e|]; [destruct (retriable e)|];
      try contradiction.
    now apply IH in Hin.
Qed.

(** An attempt that is followed by another one returned a retriable
    error, and the next attempt starts in the world it left. *)
Lemma attempts_retried steps w before a b after :
  attempts steps retriable fn w = before ++ a :: b :: after ->
  (exists e, value a = Some e /\ retriable e = true) /\ b = fn (final a).
Proof.
  revert w before. induction steps as [|steps IH]; intros w before Heq;
    cbn [attempts] in Heq.
  - destruct before; discriminate Heq.
  - apply cons_eq_app in Heq.
    destruct Heq as [(-> & <- & Hrest) | (before' & -> & Hrest)].
    + destruct (value (fn w)) as [e|]; [destruct (retriable e) eqn:He|];
        try discriminate Hrest.
      split; [now exists e|].
      destruct steps; cbn [attempts] in Hrest; [discriminate Hrest|].
      now injection Hrest as <- _.
    + destruct (value (fn w)) as [e|]; [destruct (retriable e)|].
      * now apply IH in Hrest.
      * destruct before'; discriminate Hrest.
      * destruct before'; discriminate Hrest.
Qed.

(** The last attempt either did not return a retriable error, or used up
    the budget. *)
Lemma attempts_last steps w before a :
  attempts steps retriable fn w = before ++ [a] ->
  (forall e, value a = Some e -> retriable e = false) \/
  List.length (before ++ [a]) = steps.
Proof.
  revert w before. induction steps as [|steps IH]; intros w before Heq;
    cbn [attempts] in Heq.
  - destruct before; discriminate Heq.
  - apply cons_eq_app in Heq.
    destruct Heq as [(-> & <- & Hrest) | (before' & -> & Hrest)].
    + destruct (value (fn w)) as [e|] eqn:Hv; [destruct (retriable e) eqn:He|].
      * right. destruct steps; [reflexivity|]. discriminate Hrest.
      * left. intros e' [= <-]. exact He.
      * left. intros e' [=].
    + destruct (value (fn w)) as [e|]; [destruct (retriable e)|].
      * destruct (IH _ _ Hrest) as [Hl | Hr]; [now left | right].
        cbn [app List.length]. now rewrite Hr.
      * destruct before'; discriminate Hrest.
      * destruct before'; discriminate Hrest.
Qed.

Lemma attempts_nonempty steps w :
  (0 < steps)%nat -> attempts steps retriable fn w <> [].
Proof. destruct steps; [lia | discriminate]. Qed.

End RetryFacts.

(** ** The calls of the retry loop, attempt by attempt *)

Section RetryTraces.

Context {error PolicySpec W : Type}.
Variable retriable : error -> bool.
Variable fn : M error PolicySpec W (option error).
Hypothesis fn_like : forall w, attemptLike (fn w).

Local Abbreviation OnError := (retry.OnError (W := W) (PolicySpec := PolicySpec)).
Local Abbreviation Attempt := (Run error PolicySpec W (option error)).

Lemma callsOf_cons (a : Attempt) l :
  callsOf (a :: l) = events a ++ callsOf l.
Proof. reflexivity. Qed.

Lemma attempts_like steps w a :
  In a (attempts steps retriable fn w) -> attemptLike a.
Proof. intros Hin. apply attempts_runs in Hin as [w' ->]. apply fn_like. Qed.

Lemma attemptLike_calls (a : Attempt) : attemptLike a -> events a <> [].
Proof. intros [(k & x & rest & -> & _) _]. discriminate. Qed.

Lemma callsOf_nil (l : list Attempt) :
  (forall a, In a l -> attemptLike a) -> callsOf l = [] -> l = [].
Proof.
  destruct l as [|a l]; [reflexivity|]. intros Hlike Hnil.
  rewrite callsOf_cons in Hnil. apply app_eq_nil in Hnil as [Hnil _].
  now apply attemptLike_calls in Hnil; [|apply Hlike; left].
Qed.

(** Every call belongs to one attempt. *)
Lemma locate_call steps lastErr w pre ev post :
  events (OnError steps retriable fn lastErr w) = pre ++ ev :: post ->
  exists before a after p q,
    attempts steps retriable fn w = before ++ a :: after /\
    events a = p ++ ev :: q /\
    pre = callsOf before ++ p /\
    post = q ++ callsOf after.
Proof.
  rewrite OnError_events. intros Heq.
  unfold callsOf. apply concat_locate in Heq
    as (pieces1 & piece & pieces2 & p & q & Hmap & Hpiece & Hpre & Hpost).
  apply map_eq_app in Hmap as (before & rest & Hatt & <- & Hrest).
  apply map_eq_cons in Hrest as (a & after & -> & <- & <-).
  now exists before, a, after, p, q.
Qed.

(** A [Get] opens its attempt. *)
Lemma locate_get steps lastErr w pre k x post :
  events (OnError steps retriable fn lastErr w) = pre ++ EvGet k x :: post ->
  exists before a after,
    attempts steps retriable fn w = before ++ a :: after /\
    pre = callsOf before /\
    EvGet k x :: post = events a ++ callsOf after.
Proof.
  intros Heq.
  apply locate_call in Heq as (before & a & after & p & q & Hatt & Ha & -> & ->).
  assert (Hlike : attemptLike a).
  { apply (attempts_like steps w). rewrite Hatt. apply in_elt. }
  destruct Hlike as [(k0 & x0 & rest & Hev & Hrest) _].
  rewrite Hev in Ha. apply cons_eq_app in Ha.
  destruct Ha as [(-> & Hx & ->) | (p' & -> & ->)].
  - exists before, a, after. rewrite app_nil_r, Hev, Hx.
    repeat split; try assumption.
  - apply Forall_app in Hrest as [_ Hrest].
    apply Forall_inv in Hrest. discriminate Hrest.
Qed.

(** A write closes its attempt and gives it its value. *)
Lemma locate_write steps lastErr w pre q r post :
  events (OnError steps retriable fn lastErr w)
  = pre ++ EvStatusUpdate q r :: post ->
  exists before a after calls,
    attempts steps retriable fn w = before ++ a :: after /\
    events a = calls ++ [EvStatusUpdate q r] /\
    value a = r /\
    pre = callsOf before ++ calls /\
    post = callsOf after.
Proof.
  intros Heq.
  apply locate_call in Heq as (before & a & after & p & q' & Hatt & Ha & -> & ->).
  assert (Hlike : attemptLike a).
  { apply (attempts_like steps w). rewrite Hatt. apply in_elt. }
  destruct Hlike as [_ Hwrite].
  destruct (Hwrite _ _ _ _ Ha) as [-> Hv]. subst r.
  now exists before, a, after, p.
Qed.

(** One [Get] per attempt. *)
Lemma attemptLike_gets (a : Attempt) :
  attemptLike a -> List.length (filter isGet (events a)) = 1%nat.
Proof.
  intros [(k & x & rest & -> & Hrest) _]. cbn [filter isGet List.length].
  f_equal. induction Hrest as [|ev rest Hev _ IH]; [reflexivity|].
  cbn [filter]. now rewrite Hev.
Qed.

Lemma callsOf_gets (l : list Attempt) :
  (forall a, In a l -> attemptLike a) ->
  List.length (filter isGet (callsOf l)) = List.length l.
Proof.
  induction l as [|a l IH]; intros Hlike; [reflexivity|].
  rewrite callsOf_cons, filter_app, length_app.
  rewrite attemptLike_gets by (apply Hlike; now left).
  rewrite IH by (intros b Hb; apply Hlike; now right).
  reflexivity.
Qed.

(** The loop makes at most [steps] attempts. *)
Lemma OnError_budget steps lastErr w :
  (List.length (filter isGet (events (OnError steps retriable fn lastErr w)))
   <= steps)%nat.
Proof.
  rewrite OnError_events. fold (callsOf (attempts steps retriable fn w)).
  rewrite callsOf_gets by apply attempts_like.
  apply attempts_length.
Qed.

(** What follows an attempt [a] of the loop: nothing, when [a] succeeded
    or failed for good or the budget is used up, and then the loop
    returns what [a] returned; a fresh attempt otherwise. *)
Lemma after_attempt steps lastErr w before a after :
  attempts steps retriable fn w = before ++ a :: after ->
  (after = [] -> value (OnError steps retriable fn lastErr w) = value a) /\
  (value a = None -> after = []) /\
  (forall e, value a = Some e -> retriable e = false -> after = []) /\
  (forall e, value a = Some e -> retriable e = true ->
             (S (List.length before) < steps)%nat ->
             exists b after', after = b :: after' /\ b = fn (final a)) /\
  (forall e, value a = Some e -> retriable e = true ->
             (steps <= S (List.length before))%nat -> after = []).
Proof.
  intros Hatt.
  assert (Hnext : forall b after', after = b :: after' ->
                    (exists e, value a = Some e /\ retriable e = true)
                    /\ b = fn (final a)).
  { intros b after' ->. exact (attempts_retried _ _ _ _ _ _ _ _ Hatt). }
  repeat split.
  - intros ->. rewrite OnError_value, Hatt, map_app. cbn [map].
    apply last_last.
  - intros Hv. destruct after as [|b after']; [reflexivity|].
    destruct (Hnext _ _ eq_refl) as [(e & He & _) _]. congruence.
  - intros e Hv He. destruct after as [|b after']; [reflexivity|].
    destruct (Hnext _ _ eq_refl) as [(e' & He' & Hr) _]. congruence.
  - intros e Hv He Hlt. destruct after as [|b after'].
    + apply attempts_last in Hatt as [Hno | Hlen].
      * rewrite (Hno _ Hv) in He. discriminate He.
      * rewrite length_app in Hlen. cbn [List.length] in Hlen. lia.
    + exists b, after'. split; [reflexivity|]. now apply Hnext with after'.
  - intros e Hv He Hge. destruct after as [|b after']; [reflexivity|].
    pose proof (attempts_length retriable fn steps w) as Hlen.
    rewrite Hatt, length_app in Hlen. cbn [List.length] in Hlen. lia.
Qed.

(** The fate of the loop after a write, by the answer of the store. *)
Lemma after_write steps lastErr w pre q r post :
  events (OnError steps retriable fn lastErr w)
  = pre ++ EvStatusUpdate q r :: post ->
  let run := OnError steps retriable fn lastErr w in
  (r = None -> post = [] /\ value run = None) /\
  (forall e, r = Some e -> retriable e = false ->
             post = [] /\ value run = Some e) /\
  (forall e, r = Some e -> retriable e = true ->
             (List.length (filter isGet pre) < steps)%nat ->
             exists k x post', post = EvGet k x :: post') /\
  (forall e, r = Some e -> retriable e = true ->
             (steps <= List.length (filter isGet pre))%nat ->
             post = [] /\ value run = Some e) /\
  (post <> [] -> exists e, r = Some e /\ retriable e = true).
Proof.
  intros Heq run.
  apply locate_write in Heq
    as (before & a & after & calls & Hatt & Hev & Hv & -> & ->).
  assert (Hlike : forall b, In b (before ++ a :: after) -> attemptLike b).
  { intros b Hb. apply (attempts_like steps w). now rewrite Hatt. }
  assert (Hgets : List.length (filter isGet (callsOf before ++ calls))
                  = S (List.length before)).
  { rewrite filter_app, length_app.
    rewrite callsOf_gets by (intros b Hb; apply Hlike, in_or_app; now left).
    pose proof (attemptLike_gets a (Hlike a (in_elt _ _ _))) as Hone.
    rewrite Hev, filter_app, length_app in Hone. cbn in Hone. lia. }
  destruct (after_attempt steps lastErr w _ _ _ Hatt)
    as (Hlast & Hnone & Hfatal & Hretry & Hspent).
  fold run in Hlast. rewrite Hv in *.
  split; [|split; [|split; [|split]]].
  - intros Hr. rewrite (Hnone Hr). split; [reflexivity|].
    rewrite Hlast; [assumption | now apply Hnone].
  - intros e Hr He. rewrite (Hfatal _ Hr He). split; [reflexivity|].
    rewrite Hlast; [assumption | now apply (Hfatal e)].
  - intros e Hr He Hlt. rewrite Hgets in Hlt.
    destruct (Hretry e Hr He Hlt) as (b & after' & -> & Hb).
    destruct (Hlike b) as [(k & x & rest & Hrest & _) _].
    { apply in_or_app. right. right. now left. }
    exists k, x, (rest ++ callsOf after').
    rewrite callsOf_cons. now rewrite Hrest.
  - intros e Hr He Hge. rewrite Hgets in Hge.
    rewrite (Hspent _ Hr He Hge). split; [reflexivity|].
    rewrite Hlast; [assumption | now apply (Hspent e)].
  - intros Hpost. destruct after as [|b after']; [now elim Hpost|].
    destruct r as [e|].
    + exists e. split; [reflexivity|].
      destruct (retriable e) eqn:He; [reflexivity|].
      discriminate (Hfatal e eq_refl He).
    + discriminate (Hnone eq_refl).
Qed.

(** Only the last call of the loop can be a write the store accepted. *)
Lemma persisted_is_last steps lastErr w pre ev post :
  events (OnError steps retriable fn lastErr w) = pre ++ ev :: post ->
  Forall (fun ev' => isPersisted ev' = false) pre.
Proof.
  intros Heq. apply Forall_forall. intros ev' Hin.
  destruct (isPersisted ev') eqn:Hp; [exfalso | reflexivity].
  destruct ev' as [| | | |q [e|]]; try discriminate Hp.
  apply in_split in Hin as (pre1 & pre2 & ->).
  rewrite <- app_assoc in Heq. cbn [app] in Heq.
  pose proof (after_write _ _ _ _ _ _ _ Heq) as Hw. cbv zeta in Hw.
  destruct Hw as (Hnone & _). destruct (Hnone eq_refl) as [Hnil _].
  destruct pre2; discriminate Hnil.
Qed.

(** A call that ends its attempt with the error [err]: when [err] is
    not retriable, or nothing was called afterwards, the loop stopped
    there and returned [err]. *)
Lemma after_failure steps lastErr w pre ev post err :
  events (OnError steps retriable fn lastErr w) = pre ++ ev :: post ->
  (forall w' p q, events (fn w') = p ++ ev :: q ->
                  q = [] /\ value (fn w') = Some err) ->
  post = [] \/ retriable err = false ->
  stopsWith (OnError steps retriable fn lastErr w) pre post err.
Proof.
  intros Heq Hends Hstop.
  pose proof (persisted_is_last _ _ _ _ _ _ Heq) as Hpre.
  apply locate_call in Heq as (before & a & after & p & q & Hatt & Ha & -> & ->).
  assert (Hin : In a (attempts steps retriable fn w))
    by (rewrite Hatt; apply in_elt).
  apply attempts_runs in Hin as [w' ->].
  destruct (Hends _ _ _ Ha) as [-> Hv]. cbn [app] in *.
  destruct (after_attempt steps lastErr w _ _ _ Hatt)
    as (Hlast & _ & Hfatal & _).
  assert (Hafter : after = []).
  { destruct Hstop as [Hnil | Hno].
    - apply callsOf_nil in Hnil; [assumption|].
      intros b Hb. apply (attempts_like steps w). rewrite Hatt.
      apply in_or_app. right. now right.
    - now apply (Hfatal err). }
  subst after. repeat split; try assumption.
  now rewrite Hlast.
Qed.

(** A loop with some budget starts with an attempt from the world it was
    given. *)
Lemma first_attempt steps lastErr w :
  exists rest,
    events (retry.OnError (S steps) retriable fn lastErr w)
    = events (fn w) ++ rest.
Proof.
  rewrite OnError_events. cbn [attempts map List.concat].
  eexists. reflexivity.
Qed.

(** A call that ends its attempt with a retriable error [err]: a fresh
    attempt follows while the budget lasts, and the loop returns [err]
    when it is used up. *)
Lemma after_retriable_failure steps lastErr w pre ev post err :
  events (OnError steps retriable fn lastErr w) = pre ++ ev :: post ->
  (forall w' p q, events (fn w') = p ++ ev :: q ->
                  q = [] /\ value (fn w') = Some err) ->
  retriable err = true ->
  ((List.length (filter isGet (pre ++ [ev])) < steps)%nat ->
   exists k x post', post = EvGet k x :: post') /\
  ((steps <= List.length (filter isGet (pre ++ [ev])))%nat ->
   stopsWith (OnError steps retriable fn lastErr w) pre post err).
Proof.
  intros Heq Hends He.
  pose proof (persisted_is_last _ _ _ _ _ _ Heq) as Hpre.
  apply locate_call in Heq as (before & a & after & p & q & Hatt & Ha & -> & ->).
  assert (Hlike : forall b, In b (before ++ a :: after) -> attemptLike b).
  { intros b Hb. apply (attempts_like steps w). now rewrite Hatt. }
  pose proof (attemptLike_gets a (Hlike a (in_elt _ _ _))) as Hone.
  assert (Hin : In a (attempts steps retriable fn w))
    by (rewrite Hatt; apply in_elt).
  apply attempts_runs in Hin as [w' ->].
  destruct (Hends _ _ _ Ha) as [-> Hv]. cbn [app] in *.
  assert (Hgets : List.length (filter isGet ((callsOf before ++ p) ++ [ev]))
                  = S (List.length before)).
  { rewrite <- app_assoc, filter_app, length_app, <- Ha, Hone.
    rewrite callsOf_gets by (intros b Hb; apply Hlike, in_or_app; now left).
    lia. }
  rewrite Hgets.
  destruct (after_attempt steps lastErr w _ _ _ Hatt)
    as (Hlast & _ & _ & Hretry & Hspent).
  split.
  - intros Hlt.
    destruct (Hretry err Hv He Hlt) as (b & after' & -> & Hb).
    destruct (Hlike b) as [(k & x & rest & Hrest & _) _].
    { apply in_or_app. right. right. now left. }
    exists k, x, (rest ++ callsOf after').
    rewrite callsOf_cons. now rewrite Hrest.
  - intros Hge. rewrite (Hspent _ Hv He Hge) in *.
    repeat split; try assumption. now rewrite Hlast.
Qed.

(** After a call that ends its attempt comes nothing, or a whole new
    attempt. *)
Lemma after_last_call steps lastErr w pre ev post :
  events (OnError steps retriable fn lastErr w) = pre ++ ev :: post ->
  (forall w' p q, events (fn w') = p ++ ev :: q -> q = []) ->
  post = [] \/ exists w' rest, post = events (fn w') ++ rest.
Proof.
  intros Heq Hends.
  apply locate_call in Heq as (before & a & after & p & q & Hatt & Ha & -> & ->).
  assert (Hin : In a (attempts steps retriable fn w))
    by (rewrite Hatt; apply in_elt).
  apply attempts_runs in Hin as [w' ->].
  rewrite (Hends _ _ _ Ha). cbn [app].
  destruct after as [|b after]; [now left | right].
  assert (Hin : In b (attempts steps retriable fn w)).
  { rewrite Hatt. apply in_or_app. right. right. now left. }
  apply attempts_runs in Hin as [w'' ->].
  now exists w'', (callsOf after).
Qed.

End RetryTraces.

(** ** One attempt *)

(** Finds where a call sits in an explicit list of calls. *)
Ltac split_calls Heq :=
  lazymatch type of Heq with
  | [] = ?before ++ _ :: _ => destruct before; discriminate Heq
  | _ :: _ = ?before ++ _ :: _ =>
      apply cons_eq_app in Heq;
      let Hx := fresh "Hx" in
      let Hl := fresh "Hl" in
      destruct Heq as [(-> & Hx & Hl) | (? & -> & Heq)];
      [ try discriminate Hx | split_calls Heq ]
  end.

Section Attempts.

Context {error PolicySpec W : Type}.
Context `{ApiErrors error} `{Clock W} `{Client error PolicySpec W}.

Variable Count :
  list nmstatev1beta1.NodeNetworkConfigurationEnactment -> Z ->
  enactmentconditions.EnactmentCount.
Variable EnactmentPolicyLabel : string.

Local Abbreviation Policy := (nmstatev1beta1.NodeNetworkConfigurationPolicy PolicySpec).

(** The closure of [Update] behaves as [UpdateAttempt] says, from every
    state of the world. *)
Lemma Update_func1_attempt key (w : W) :
  UpdateAttempt Count EnactmentPolicyLabel key
    (events (Update_func1 Count EnactmentPolicyLabel key w))
    (value (Update_func1 Count EnactmentPolicyLabel key w)).
Proof.
  unfold Update_func1, bind, cliGet, cliList, nodeNodesRunningNmstate,
    cliStatusUpdate, ret.
  cbv zeta. cbn [value final events].
  destruct (Get key w) as [[policy | e] w1]; cbn [fst snd value final events app];
    [|constructor].
  destruct (List_ (policyLabelFilter EnactmentPolicyLabel policy) w1)
    as [[enactments | e] w2]; cbn [fst snd value final events app];
    [|constructor].
  destruct (NodesRunningNmstate w2) as [[nodes | e] w3];
    cbn [fst snd value final events app]; [|constructor].
  rewrite setPolicyConditions_run. cbn [fst snd value final events app].
  exact (update_write Count EnactmentPolicyLabel key policy enactments nodes _ _ _).
Qed.

Lemma Reset_func1_attempt key (w : W) :
  ResetAttempt key
    (events (Reset_func1 (PolicySpec := PolicySpec) key w))
    (value (Reset_func1 (PolicySpec := PolicySpec) key w)).
Proof.
  unfold Reset_func1, bind, cliGet, cliStatusUpdate, ret.
  cbv zeta. cbn [value final events].
  destruct (Get key w) as [[policy | e] w1]; cbn [fst snd value final events app];
    constructor.
Qed.

(** An attempt of [Update] starts with its only [Get]. *)
Lemma UpdateAttempt_head key (calls : list (Event error PolicySpec)) v :
  UpdateAttempt Count EnactmentPolicyLabel key calls v ->
  exists x rest,
    calls = EvGet key x :: rest /\ Forall (fun ev => isGet ev = false) rest.
Proof.
  intros [e | policy e | policy enactments e | policy enactments nodes ta tb r];
    eexists; eexists; (split; [reflexivity | repeat constructor]).
Qed.

(** A write of [Update] comes after a full fetch, carries the policy
    computed from that fetch, and is the last call of its attempt. *)
Lemma UpdateAttempt_write key (calls : list (Event error PolicySpec)) v before q r after :
  UpdateAttempt Count EnactmentPolicyLabel key calls v ->
  calls = before ++ EvStatusUpdate q r :: after ->
  exists policy enactments nodes ta tb,
    before = fetched EnactmentPolicyLabel key policy enactments nodes ta tb /\
    q = persisted Count policy enactments nodes ta tb /\
    after = [] /\ v = r.
Proof.
  intros [e | policy e | policy enactments e | policy enactments nodes ta tb r'] Heq;
    unfold fetched in *; cbn [app] in Heq; split_calls Heq.
  injection Hx as <- <-. subst after.
  now exists policy, enactments, nodes, ta, tb.
Qed.

(** The calls that follow a fetch that went through. *)
Lemma UpdateAttempt_fetch key (calls : list (Event error PolicySpec)) v more k policy f
  enactments nodes post :
  UpdateAttempt Count EnactmentPolicyLabel key calls v ->
  EvGet k (Ok policy) :: EvList f (Ok enactments) :: EvNodes (Ok nodes) :: post
  = calls ++ more ->
  exists ta tb,
    post = EvNow ta :: EvNow tb
           :: EvStatusUpdate (persisted Count policy enactments nodes ta tb) v
           :: more.
Proof.
  intros [e | p e | p es e | p es ns ta tb r] Heq;
    unfold fetched in *; cbn [app] in Heq.
  - injection Heq as _ Hx. discriminate Hx.
  - injection Heq as _ _ _ Hx. discriminate Hx.
  - injection Heq as _ _ _ _ Hx. discriminate Hx.
  - injection Heq as _ <- _ <- <- ->. now exists ta, tb.
Qed.

(** A failing fetch of [Update] ends the attempt with the error,
    wrapped. *)
Lemma UpdateAttempt_failure key (calls : list (Event error PolicySpec)) v p ev q :
  UpdateAttempt Count EnactmentPolicyLabel key calls v ->
  calls = p ++ ev :: q ->
  match ev with
  | EvGet _ (Err e) => q = [] /\ v = Some (Wrap e "getting policy failed")
  | EvList _ (Err e) => q = [] /\ v = Some (Wrap e "getting enactments failed")
  | EvNodes (Err e) =>
      q = [] /\
      v = Some (Wrap e "getting nodes running kubernets-nmstate pods failed")
  | _ => True
  end.
Proof.
  intros [e | policy e | policy enactments e | policy enactments nodes ta tb r] Heq;
    unfold fetched in *; cbn [app] in Heq; split_calls Heq;
    subst; cbn; auto.
Qed.

Lemma ResetAttempt_failure key (calls : list (Event error PolicySpec)) v p k e q :
  ResetAttempt key calls v ->
  calls = p ++ EvGet k (Err e) :: q ->
  q = [] /\ v = Some (Wrap e "getting policy failed").
Proof.
  intros [e' | policy r] Heq; split_calls Heq.
  injection Hx as _ <-. now subst q.
Qed.

(** [Reset] only fetches the policy and writes it. *)
Lemma ResetAttempt_calls key (calls : list (Event error PolicySpec)) v :
  ResetAttempt key calls v ->
  Forall (fun ev => (isGet ev || isWrite ev)%bool = true) calls.
Proof. intros [e | policy r]; repeat constructor. Qed.

Lemma ResetAttempt_head key (calls : list (Event error PolicySpec)) v :
  ResetAttempt (error := error) (PolicySpec := PolicySpec) key calls v ->
  exists x rest,
    calls = EvGet key x :: rest /\ Forall (fun ev => isGet ev = false) rest.
Proof.
  intros [e | policy r];
    eexists; eexists; (split; [reflexivity | repeat constructor]).
Qed.

(** A write of [Reset] comes right after the [Get], carries the fetched
    policy with no condition, and is the last call of its attempt. *)
Lemma ResetAttempt_write key (calls : list (Event error PolicySpec)) v before q r after :
  ResetAttempt (error := error) (PolicySpec := PolicySpec) key calls v ->
  calls = before ++ EvStatusUpdate q r :: after ->
  exists policy,
    before = [EvGet key (Ok policy)] /\
    q = nmstatev1beta1.withConditions [] policy /\
    after = [] /\ v = r.
Proof.
  intros [e | policy r'] Heq; split_calls Heq.
  injection Hx as <- <-. subst after. now exists policy.
Qed.

(** A successful [Get] of [Reset] is followed by the write of the
    fetched policy with no condition, which ends the attempt. *)
Lemma ResetAttempt_fetch key (calls : list (Event error PolicySpec)) v more k policy post :
  ResetAttempt (error := error) (PolicySpec := PolicySpec) key calls v ->
  EvGet k (Ok policy) :: post = calls ++ more ->
  post = EvStatusUpdate (nmstatev1beta1.withConditions [] policy) v :: more.
Proof.
  intros [e | p r] Heq; cbn [app] in Heq.
  - injection Heq as _ Hx. discriminate Hx.
  - now injection Heq as _ <- ->.
Qed.

Lemma Update_func1_like key (w : W) :
  attemptLike (Update_func1 Count EnactmentPolicyLabel key w).
Proof.
  pose proof (Update_func1_attempt key w) as Hshape. split.
  - apply UpdateAttempt_head in Hshape as (x & rest & Hcalls & Hrest).
    now exists key, x, rest.
  - intros before q r after Heq.
    destruct (UpdateAttempt_write _ _ _ _ _ _ _ Hshape Heq)
      as (_ & _ & _ & _ & _ & _ & _ & Hafter & Hv).
    now split.
Qed.

Lemma Reset_func1_like key (w : W) :
  attemptLike (Reset_func1 (PolicySpec := PolicySpec) key w).
Proof.
  pose proof (Reset_func1_attempt key w) as Hshape. split.
  - apply ResetAttempt_head in Hshape as (x & rest & Hcalls & Hrest).
    now exists key, x, rest.
  - intros before q r after Heq.
    destruct (ResetAttempt_write _ _ _ _ _ _ _ Hshape Heq)
      as (_ & _ & _ & Hafter & Hv).
    now split.
Qed.

(** [Update] and [Reset] are the loop of [retry.OnError] with a budget
    of five attempts. *)
Lemma Update_loop key (w : W) :
  Update Count EnactmentPolicyLabel key w
  = retry.OnError 5 IsConflict (Update_func1 Count EnactmentPolicyLabel key) None w.
Proof. reflexivity. Qed.

Lemma Reset_loop key (w : W) :
  Reset (PolicySpec := PolicySpec) key w
  = retry.OnError 5 IsConflict (Reset_func1 key) None w.
Proof. reflexivity. Qed.

End Attempts.

(** ** [Update]: the verdict *)

Section Verdict.

Context {error PolicySpec W : Type}.
Context `{ApiErrors error} `{Clock W} `{Client error PolicySpec W}.

Variable Count :
  list nmstatev1beta1.NodeNetworkConfigurationEnactment -> Z ->
  enactmentconditions.EnactmentCount.
Variable EnactmentPolicyLabel : string.

Local Abbreviation Degraded := nmstate.NodeNetworkConfigurationPolicyConditionDegraded.
Local Abbreviation Available := nmstate.NodeNetworkConfigurationPolicyConditionAvailable.

(** Wherever the calls of [Update] show a fetch that went through (the
    policy, its enactments, the nodes), the next calls are the two
    readings of the clock and the write of the policy computed from that
    fetch. *)
Lemma Update_fetch_write key (w : W) pre k policy f enactments nodes post :
  events (Update Count EnactmentPolicyLabel key w)
  = pre ++ EvGet k (Ok policy) :: EvList f (Ok enactments)
        :: EvNodes (Ok nodes) :: post ->
  exists ta tb r post',
    post = EvNow ta :: EvNow tb
           :: EvStatusUpdate (persisted Count policy enactments nodes ta tb) r
           :: post'.
Proof.
  rewrite Update_loop. intros Heq.
  apply locate_get in Heq as (before & a & after & Hatt & _ & Hcalls);
    [|apply Update_func1_like].
  assert (Hin : In a (attempts 5 IsConflict
                        (Update_func1 Count EnactmentPolicyLabel key) w))
    by (rewrite Hatt; apply in_elt).
  apply attempts_runs in Hin as [w' ->].
  destruct (UpdateAttempt_fetch _ _ _ _ _ _ _ _ _ _ _ _
              (Update_func1_attempt Count EnactmentPolicyLabel key w') Hcalls)
    as (ta & tb & Hpost).
  now exists ta, tb, (value (Update_func1 Count EnactmentPolicyLabel key w')),
    (callsOf after).
Qed.

Lemma persisted_conditions (policy : nmstatev1beta1.NodeNetworkConfigurationPolicy PolicySpec)
  enactments nodes ta tb :
  policyConditions (persisted Count policy enactments nodes ta tb)
  = conditionsAt ta tb (countOf Count policy enactments) (len nodes)
      (policyConditions policy).
Proof. reflexivity. Qed.





End Verdict.

(** ** [Update] and [Reset]: fetching, retrying, failing *)

(** A call that is not among the last calls [tail] of a list sits before
    them. *)
Lemma before_tail {A : Type} (x : A) (pre mid front tail : list A) :
  ~ In x tail ->
  pre ++ x :: mid = front ++ tail ->
  exists mid', mid = mid' ++ tail.
Proof.
  intros Hx Heq. apply app_eq_app in Heq.
  destruct Heq as (l & [[-> Htail] | [-> Hmid]]).
  - elim Hx. rewrite Htail. apply in_elt.
  - destruct l as [|y l]; cbn [app] in Hmid.
    + elim Hx. rewrite <- Hmid. now left.
    + injection Hmid as _ ->. now exists l.
Qed.

Section Executor.

Context {error PolicySpec W : Type}.
Context `{ApiErrors error} `{Clock W} `{Client error PolicySpec W}.

Variable Count :
  list nmstatev1beta1.NodeNetworkConfigurationEnactment -> Z ->
  enactmentconditions.EnactmentCount.
Variable EnactmentPolicyLabel : string.

(** Every write of [Update] carries the policy computed from the five
    calls just before it: the fetch of its own attempt. *)
Lemma Update_write_provenance key (w : W) pre q r post :
  events (Update Count EnactmentPolicyLabel key w)
  = pre ++ EvStatusUpdate q r :: post ->
  exists pre' policy enactments nodes ta tb,
    pre = pre' ++ fetched EnactmentPolicyLabel key policy enactments nodes ta tb /\
    q = persisted Count policy enactments nodes ta tb.
Proof.
  rewrite Update_loop. intros Heq.
  apply locate_write in Heq
    as (before & a & after & calls & Hatt & Ha & _ & -> & _);
    [|apply Update_func1_like].
  assert (Hin : In a (attempts 5 IsConflict
                        (Update_func1 Count EnactmentPolicyLabel key) w))
    by (rewrite Hatt; apply in_elt).
  apply attempts_runs in Hin as [w' ->].
  destruct (UpdateAttempt_write _ _ _ _ _ _ _ _ _
              (Update_func1_attempt Count EnactmentPolicyLabel key w') Ha)
    as (policy & enactments & nodes & ta & tb & -> & -> & _).
  now exists (callsOf before), policy, enactments, nodes, ta, tb.
Qed.

Lemma Reset_write_provenance key (w : W) pre q r post :
  events (Reset (PolicySpec := PolicySpec) key w)
  = pre ++ EvStatusUpdate q r :: post ->
  exists pre' policy,
    pre = pre' ++ [EvGet key (Ok policy)] /\
    q = nmstatev1beta1.withConditions [] policy.
Proof.
  rewrite Reset_loop. intros Heq.
  apply locate_write in Heq
    as (before & a & after & calls & Hatt & Ha & _ & -> & _);
    [|apply Reset_func1_like].
  assert (Hin : In a (attempts 5 IsConflict (Reset_func1 key) w))
    by (rewrite Hatt; apply in_elt).
  apply attempts_runs in Hin as [w' ->].
  destruct (ResetAttempt_write _ _ _ _ _ _ _
              (Reset_func1_attempt key w') Ha)
    as (policy & -> & -> & _).
  now exists (callsOf before), policy.
Qed.

(** Every [Get] of [Update] asks for the policy [key]. *)
Lemma Update_get_key key (w : W) pre k x post :
  events (Update Count EnactmentPolicyLabel key w) = pre ++ EvGet k x :: post ->
  k = key.
Proof.
  rewrite Update_loop. intros Heq.
  apply locate_get in Heq as (before & a & after & Hatt & _ & Hhead);
    [|apply Update_func1_like].
  assert (Hin : In a (attempts 5 IsConflict
                        (Update_func1 Count EnactmentPolicyLabel key) w))
    by (rewrite Hatt; apply in_elt).
  apply attempts_runs in Hin as [w' ->].
  destruct (UpdateAttempt_head _ _ _ _ _
              (Update_func1_attempt Count EnactmentPolicyLabel key w'))
    as (x' & rest & Hev & _).
  rewrite Hev in Hhead. now injection Hhead as -> _.
Qed.

(** C5.  When a write of [Update] is rejected and a later one is
    accepted, the accepted policy is computed from a fetch made after
    the rejected write: the policy, its enactments and the nodes are all
    read again between the two writes, and nothing read before the
    rejected write enters the policy that is persisted.  The rejection
    was a conflict, and the accepted write ends [Update] with no
    error. *)
Theorem Update_conflict_refetch key (w : W) pre rejected e mid accepted post :
  events (Update Count EnactmentPolicyLabel key w)
  = pre ++ EvStatusUpdate rejected (Some e)
        :: mid ++ EvStatusUpdate accepted None :: post ->
  exists mid' policy enactments nodes ta tb,
    mid = mid' ++ fetched EnactmentPolicyLabel key policy enactments nodes ta tb /\
    accepted = persisted Count policy enactments nodes ta tb /\
    IsConflict e = true /\
    post = [] /\
    value (Update Count EnactmentPolicyLabel key w) = None.
Proof.
  intros Heq.
  assert (Hretried : IsConflict e = true).
  { pose proof Heq as Hfirst. rewrite Update_loop in Hfirst.
    apply after_write in Hfirst; [|apply Update_func1_like].
    cbv zeta in Hfirst. destruct Hfirst as (_ & _ & _ & _ & Hmore).
    destruct Hmore as (e' & [= <-] & He); [|exact He].
    destruct mid; discriminate. }
  assert (Hlast : post = [] /\ value (Update Count EnactmentPolicyLabel key w) = None).
  { pose proof Heq as Hsecond. rewrite Update_loop in Hsecond.
    change (?l ++ ?x :: ?m ++ ?y :: ?p) with (l ++ (x :: m) ++ y :: p) in Hsecond.
    rewrite app_assoc in Hsecond.
    apply after_write in Hsecond; [|apply Update_func1_like].
    cbv zeta in Hsecond. destruct Hsecond as (Hnone & _).
    rewrite Update_loop. now apply Hnone. }
  change (?l ++ ?x :: ?m ++ ?y :: ?p) with (l ++ (x :: m) ++ y :: p) in Heq.
  rewrite app_assoc in Heq.
  apply Update_write_provenance in Heq
    as (pre' & policy & enactments & nodes & ta & tb & Hpre & ->).
  apply before_tail in Hpre as [mid' ->].
  - now exists mid', policy, enactments, nodes, ta, tb.
  - unfold fetched. cbn [In].
    intros [Hx | [Hx | [Hx | [Hx | [Hx | []]]]]]; discriminate Hx.
Qed.

(** C6.  The errors of [Update].  A failing fetch (of the policy, of its
    enactments, of the nodes) ends the attempt without a write, and no
    write was accepted before it.  When the error, wrapped with its
    context, is not a conflict, or nothing is called afterwards,
    [Update] stops there and returns the wrapped error.  When the
    wrapped error counts as a conflict it is retried as a write conflict
    is: a fresh attempt follows while fewer than five were made, and the
    wrapped error is returned after the fifth; a failing fetch is
    followed by more calls in this case only.  A write error that is not
    a conflict is returned as it is.  A write is followed by another
    attempt only when it failed with a conflict, which happens while
    fewer than five attempts were made; after the fifth the conflict is
    returned. *)
Theorem Update_errors key (w : W) :
  let run := Update Count EnactmentPolicyLabel key w in
  (forall pre k e post,
      events run = pre ++ EvGet k (Err e) :: post ->
      post = [] \/ IsConflict (Wrap e "getting policy failed") = false ->
      stopsWith run pre post (Wrap e "getting policy failed")) /\
  (forall pre f e post,
      events run = pre ++ EvList f (Err e) :: post ->
      post = [] \/ IsConflict (Wrap e "getting enactments failed") = false ->
      stopsWith run pre post (Wrap e "getting enactments failed")) /\
  (forall pre e post,
      events run = pre ++ EvNodes (Err e) :: post ->
      post = [] \/
      IsConflict (Wrap e "getting nodes running kubernets-nmstate pods failed")
      = false ->
      stopsWith run pre post
        (Wrap e "getting nodes running kubernets-nmstate pods failed")) /\
  (forall pre ev post,
      events run = pre ++ ev :: post ->
      isFailedFetch ev = true ->
      Forall (fun ev' => isPersisted ev' = false) pre /\
      (post = [] \/ exists x post', post = EvGet key x :: post')) /\
  (forall pre q e post,
      events run = pre ++ EvStatusUpdate q (Some e) :: post ->
      IsConflict e = false ->
      stopsWith run pre post e) /\
  (forall pre q r post,
      events run = pre ++ EvStatusUpdate q r :: post ->
      post <> [] ->
      exists e, r = Some e /\ IsConflict e = true) /\
  (forall pre q e post,
      events run = pre ++ EvStatusUpdate q (Some e) :: post ->
      IsConflict e = true ->
      if (List.length (filter isGet pre) <? 5)%nat
      then exists x post', post = EvGet key x :: post'
      else stopsWith run pre post e) /\
  (List.length (filter isGet (events run)) <= 5)%nat /\
  (forall pre ev post err,
      events run = pre ++ ev :: post ->
      fetchError ev = Some err ->
      (post <> [] -> IsConflict err = true) /\
      (IsConflict err = true ->
       if (List.length (filter isGet (pre ++ [ev])) <? 5)%nat
       then exists x post', post = EvGet key x :: post'
       else stopsWith run pre post err)).
Proof.
  cbv zeta. pose proof (Update_get_key key w) as Hkey.
  rewrite Update_loop in Hkey |- *.
  pose proof (Update_func1_like Count EnactmentPolicyLabel key) as Hlike.
  assert (Hends : forall ev w' p q,
             events (Update_func1 Count EnactmentPolicyLabel key w') = p ++ ev :: q ->
             match ev with
             | EvGet _ (Err e) => q = [] /\ value (Update_func1 Count EnactmentPolicyLabel key w') = Some (Wrap e "getting policy failed")
             | EvList _ (Err e) => q = [] /\ value (Update_func1 Count EnactmentPolicyLabel key w') = Some (Wrap e "getting enactments failed")
             | EvNodes (Err e) =>
                 q = [] /\
                 value (Update_func1 Count EnactmentPolicyLabel key w')
                 = Some (Wrap e "getting nodes running kubernets-nmstate pods failed")
             | _ => True
             end).
  { intros ev w' p q Heq.
    exact (UpdateAttempt_failure _ _ _ _ _ _ _ _
             (Update_func1_attempt Count EnactmentPolicyLabel key w') Heq). }
  split; [|split; [|split; [|split; [|split; [|split; [|split; [|split]]]]]]].
  - intros pre k e post Heq Hstop.
    apply (after_failure _ _ Hlike _ _ _ _ _ _ _ Heq); [|exact Hstop].
    intros w' p q Hq. exact (Hends _ _ _ _ Hq).
  - intros pre f e post Heq Hstop.
    apply (after_failure _ _ Hlike _ _ _ _ _ _ _ Heq); [|exact Hstop].
    intros w' p q Hq. exact (Hends _ _ _ _ Hq).
  - intros pre e post Heq Hstop.
    apply (after_failure _ _ Hlike _ _ _ _ _ _ _ Heq); [|exact Hstop].
    intros w' p q Hq. exact (Hends _ _ _ _ Hq).
  - intros pre ev post Heq Hev. split.
    + exact (persisted_is_last _ _ Hlike _ _ _ _ _ _ Heq).
    + apply after_last_call in Heq as [-> | (w' & rest & ->)]; [now left | |].
      * right.
        destruct (UpdateAttempt_head _ _ _ _ _
                    (Update_func1_attempt Count EnactmentPolicyLabel key w'))
          as (x & rest' & -> & _).
        now exists x, (rest' ++ rest).
      * intros w' p q Hq. specialize (Hends _ _ _ _ Hq).
        destruct ev as [k [policy | e] | f [es | e] | [ns | e] | t | q' r];
          try discriminate Hev; apply Hends.
  - intros pre q e post Heq He.
    pose proof (persisted_is_last _ _ Hlike _ _ _ _ _ _ Heq) as Hpre.
    apply after_write in Heq; [|exact Hlike]. cbv zeta in Heq.
    destruct Heq as (_ & Hfatal & _).
    destruct (Hfatal e eq_refl He) as [-> Hv]. now repeat split.
  - intros pre q r post Heq Hpost.
    apply after_write in Heq; [|exact Hlike]. cbv zeta in Heq.
    destruct Heq as (_ & _ & _ & _ & Hmore). now apply Hmore.
  - intros pre q e post Heq He.
    pose proof (persisted_is_last _ _ Hlike _ _ _ _ _ _ Heq) as Hpre.
    pose proof Heq as Hcalls.
    apply after_write in Heq; [|exact Hlike]. cbv zeta in Heq.
    destruct Heq as (_ & _ & Hretry & Hspent & _).
    destruct (Nat.ltb_spec (List.length (filter isGet pre)) 5) as [Hlt | Hge].
    + destruct (Hretry e eq_refl He Hlt) as (k & x & post' & ->).
      exists x, post'. do 2 f_equal.
      change (pre ++ EvStatusUpdate q (Some e) :: EvGet k x :: post')
        with (pre ++ [EvStatusUpdate q (Some e)] ++ EvGet k x :: post') in Hcalls.
      rewrite app_assoc in Hcalls.
      apply locate_get in Hcalls as (before & a & after & Hatt & _ & Hhead);
        [|exact Hlike].
      assert (Hin : In a (attempts 5 IsConflict
                            (Update_func1 Count EnactmentPolicyLabel key) w))
        by (rewrite Hatt; apply in_elt).
      apply attempts_runs in Hin as [w' ->].
      destruct (UpdateAttempt_head _ _ _ _ _
                  (Update_func1_attempt Count EnactmentPolicyLabel key w'))
        as (x' & rest & Hev & _).
      rewrite Hev in Hhead. now injection Hhead as -> _.
    + destruct (Hspent e eq_refl He Hge) as [-> Hv]. now repeat split.
  - apply OnError_budget. exact Hlike.
  - intros pre ev post err Heq Herr.
    assert (Hends' : forall w' p q,
               events (Update_func1 Count EnactmentPolicyLabel key w') = p ++ ev :: q ->
               q = [] /\
               value (Update_func1 Count EnactmentPolicyLabel key w') = Some err).
    { intros w' p q Hq. specialize (Hends _ _ _ _ Hq).
      destruct ev as [k [policy | e] | f [es | e] | [ns | e] | t | q' r];
        try discriminate Herr; injection Herr as <-; exact Hends. }
    split.
    + intros Hpost. destruct (IsConflict err) eqn:He; [reflexivity|].
      destruct (after_failure _ _ Hlike _ _ _ _ _ _ _ Heq Hends' (or_intror He))
        as (Hnil & _). now elim Hpost.
    + intros He.
      destruct (after_retriable_failure _ _ Hlike _ _ _ _ _ _ _ Heq Hends' He)
        as (Hretry & Hspent).
      destruct (Nat.ltb_spec (List.length (filter isGet (pre ++ [ev]))) 5)
        as [Hlt | Hge].
      * destruct (Hretry Hlt) as (k & x & post' & ->).
        exists x, post'. do 2 f_equal.
        change (pre ++ ev :: EvGet k x :: post')
          with (pre ++ [ev] ++ EvGet k x :: post') in Heq.
        rewrite app_assoc in Heq. exact (Hkey _ _ _ _ Heq).
      * exact (Hspent Hge).
Qed.

End Executor.

Section Frame.

Context {error PolicySpec W : Type}.
Context `{ApiErrors error} `{Clock W} `{Client error PolicySpec W}.

Variable Count :
  list nmstatev1beta1.NodeNetworkConfigurationEnactment -> Z ->
  enactmentconditions.EnactmentCount.
Variable EnactmentPolicyLabel : string.

(** Every [Get] of [Reset] asks for the policy [key]. *)
Lemma Reset_get_key key (w : W) pre k x post :
  events (Reset (PolicySpec := PolicySpec) key w) = pre ++ EvGet k x :: post ->
  k = key.
Proof.
  rewrite Reset_loop. intros Heq.
  apply locate_get in Heq as (before & a & after & Hatt & _ & Hhead);
    [|apply Reset_func1_like].
  assert (Hin : In a (attempts 5 IsConflict (Reset_func1 key) w))
    by (rewrite Hatt; apply in_elt).
  apply attempts_runs in Hin as [w' ->].
  destruct (ResetAttempt_head _ _ _ (Reset_func1_attempt key w'))
    as (x' & rest & Hev & _).
  rewrite Hev in Hhead. now injection Hhead as -> _.
Qed.

(** C7.  [Reset] starts by fetching the policy [key].  Every policy it
    fetches it writes back at once with an empty list of conditions,
    whatever conditions the fetched policy had; every write is such a
    write, and [Reset] calls nothing else (no enactments, no nodes, no
    clock: no aggregate).  An accepted write ends it with no error; a
    write rejected with a conflict is followed by a whole new attempt,
    starting with a fresh [Get], while fewer than five attempts were
    made, and is returned after the fifth; any other write error ends
    [Reset] with that error.  A failing fetch ends [Reset] with the
    error wrapped with its context when the wrapped error is not a
    conflict or nothing is called afterwards; when the wrapped error
    counts as a conflict it is retried within the same budget. *)
Theorem Reset_clears key (w : W) :
  let run := Reset (PolicySpec := PolicySpec) key w in
  (forall pre q r post,
      events run = pre ++ EvStatusUpdate q r :: post ->
      exists pre' policy,
        pre = pre' ++ [EvGet key (Ok policy)] /\
        q = nmstatev1beta1.withConditions [] policy) /\
  Forall (fun ev => (isGet ev || isWrite ev)%bool = true) (events run) /\
  (forall pre q post,
      events run = pre ++ EvStatusUpdate q None :: post ->
      post = [] /\ value run = None) /\
  (forall pre q e post,
      events run = pre ++ EvStatusUpdate q (Some e) :: post ->
      IsConflict e = true ->
      if (List.length (filter isGet pre) <? 5)%nat
      then exists x post', post = EvGet key x :: post'
      else stopsWith run pre post e) /\
  (forall pre q e post,
      events run = pre ++ EvStatusUpdate q (Some e) :: post ->
      IsConflict e = false ->
      stopsWith run pre post e) /\
  (forall pre k e post,
      events run = pre ++ EvGet k (Err e) :: post ->
      post = [] \/ IsConflict (Wrap e "getting policy failed") = false ->
      stopsWith run pre post (Wrap e "getting policy failed")) /\
  (exists x rest, events run = EvGet key x :: rest) /\
  (forall pre k policy post,
      events run = pre ++ EvGet k (Ok policy) :: post ->
      exists written r post',
        post = EvStatusUpdate written r :: post' /\
        policyConditions written = [] /\
        written = nmstatev1beta1.withConditions [] policy /\
        k = key) /\
  (forall pre q r post,
      events run = pre ++ EvStatusUpdate q r :: post ->
      policyConditions q = []) /\
  (forall pre k e post,
      events run = pre ++ EvGet k (Err e) :: post ->
      (post <> [] -> IsConflict (Wrap e "getting policy failed") = true) /\
      (IsConflict (Wrap e "getting policy failed") = true ->
       if (List.length (filter isGet (pre ++ [EvGet k (Err e)])) <? 5)%nat
       then exists x post', post = EvGet key x :: post'
       else stopsWith run pre post (Wrap e "getting policy failed"))).
Proof.
  cbv zeta.
  pose proof (Reset_func1_like (PolicySpec := PolicySpec) key) as Hlike.
  pose proof (Reset_get_key key w) as Hkey.
  assert (Hends : forall k e w' p q,
             events (Reset_func1 key w') = p ++ EvGet k (Err e) :: q ->
             q = [] /\
             value (Reset_func1 key w') = Some (Wrap e "getting policy failed")).
  { intros k e w' p q Hq.
    exact (ResetAttempt_failure _ _ _ _ _ _ _ (Reset_func1_attempt key w') Hq). }
  split; [|split; [|split; [|split; [|split; [|split; [|split; [|split; [|split]]]]]]]].
  - intros pre q r post Heq. exact (Reset_write_provenance _ _ _ _ _ _ Heq).
  - rewrite Reset_loop, OnError_events. apply Forall_concat, Forall_map.
    apply Forall_forall. intros a Hin.
    apply attempts_runs in Hin as [w' ->].
    exact (ResetAttempt_calls _ _ _ (Reset_func1_attempt key w')).
  - rewrite Reset_loop. intros pre q post Heq.
    apply after_write in Heq; [|exact Hlike]. cbv zeta in Heq.
    destruct Heq as (Hnone & _). now apply Hnone.
  - intros pre q e post Heq He.
    pose proof Heq as Hcalls. rewrite Reset_loop in Heq |- *.
    pose proof (persisted_is_last _ _ Hlike _ _ _ _ _ _ Heq) as Hpre.
    apply after_write in Heq; [|exact Hlike]. cbv zeta in Heq.
    destruct Heq as (_ & _ & Hretry & Hspent & _).
    destruct (Nat.ltb_spec (List.length (filter isGet pre)) 5) as [Hlt | Hge].
    + destruct (Hretry e eq_refl He Hlt) as (k & x & post' & ->).
      exists x, post'. do 2 f_equal.
      change (pre ++ EvStatusUpdate q (Some e) :: EvGet k x :: post')
        with (pre ++ [EvStatusUpdate q (Some e)] ++ EvGet k x :: post') in Hcalls.
      rewrite app_assoc in Hcalls. exact (Hkey _ _ _ _ Hcalls).
    + destruct (Hspent e eq_refl He Hge) as [-> Hv]. now repeat split.
  - rewrite Reset_loop. intros pre q e post Heq He.
    pose proof (persisted_is_last _ _ Hlike _ _ _ _ _ _ Heq) as Hpre.
    apply after_write in Heq; [|exact Hlike]. cbv zeta in Heq.
    destruct Heq as (_ & Hfatal & _).
    destruct (Hfatal e eq_refl He) as [-> Hv]. now repeat split.
  - rewrite Reset_loop. intros pre k e post Heq Hstop.
    apply (after_failure _ _ Hlike _ _ _ _ _ _ _ Heq); [|exact Hstop].
    intros w' p q Hq. exact (Hends _ _ _ _ _ Hq).
  - rewrite Reset_loop.
    destruct (first_attempt IsConflict (Reset_func1 key) 4 None w) as (rest & ->).
    destruct (ResetAttempt_head _ _ _ (Reset_func1_attempt key w))
      as (x & rest' & -> & _).
    now exists x, (rest' ++ rest).
  - intros pre k policy post Heq.
    pose proof (Hkey _ _ _ _ Heq) as ->.
    rewrite Reset_loop in Heq.
    apply locate_get in Heq as (before & a & after & Hatt & _ & Hhead);
      [|exact Hlike].
    assert (Hin : In a (attempts 5 IsConflict (Reset_func1 key) w))
      by (rewrite Hatt; apply in_elt).
    apply attempts_runs in Hin as [w' ->].
    apply (ResetAttempt_fetch _ _ _ _ _ _ _ (Reset_func1_attempt key w')) in Hhead.
    eexists _, _, _. split; [exact Hhead|]. now repeat split.
  - intros pre q r post Heq.
    apply Reset_write_provenance in Heq as (pre' & policy & _ & ->).
    reflexivity.
  - intros pre k e post Heq. rewrite Reset_loop in Heq |- *.
    pose proof (Hends k e) as Hends'. split.
    + intros Hpost.
      destruct (IsConflict (Wrap e "getting policy failed")) eqn:He;
        [reflexivity|].
      destruct (after_failure _ _ Hlike _ _ _ _ _ _ _ Heq Hends' (or_intror He))
        as (Hnil & _). now elim Hpost.
    + intros He.
      destruct (after_retriable_failure _ _ Hlike _ _ _ _ _ _ _ Heq Hends' He)
        as (Hretry & Hspent).
      destruct (Nat.ltb_spec
                  (List.length (filter isGet (pre ++ [EvGet k (Err e)]))) 5)
        as [Hlt | Hge].
      * destruct (Hretry Hlt) as (k' & x & post' & ->).
        exists x, post'. do 2 f_equal.
        change (pre ++ EvGet k (Err e) :: EvGet k' x :: post')
          with (pre ++ [EvGet k (Err e)] ++ EvGet k' x :: post') in Heq.
        rewrite app_assoc, <- Reset_loop in Heq. exact (Hkey _ _ _ _ Heq).
      * exact (Hspent Hge).
Qed.

(** C8.  Every policy [Update] or [Reset] writes is the policy its
    attempt fetched, with another list of conditions: the metadata (name,
    generation, resource version, ...) and the spec are those that
    were read. *)
Theorem writes_touch_conditions_only key (w : W) :
  (forall pre q r post,
      events (Update Count EnactmentPolicyLabel key w)
      = pre ++ EvStatusUpdate q r :: post ->
      exists pre' policy between,
        pre = pre' ++ EvGet key (Ok policy) :: between /\
        Forall (fun ev => isGet ev = false) between /\
        q = nmstatev1beta1.withConditions (policyConditions q) policy /\
        nmstatev1beta1.ObjectMeta q = nmstatev1beta1.ObjectMeta policy /\
        nmstatev1beta1.Spec q = nmstatev1beta1.Spec policy) /\
  (forall pre q r post,
      events (Reset key w) = pre ++ EvStatusUpdate q r :: post ->
      exists pre' policy between,
        pre = pre' ++ EvGet key (Ok policy) :: between /\
        Forall (fun ev => isGet ev = false) between /\
        q = nmstatev1beta1.withConditions (policyConditions q) policy /\
        nmstatev1beta1.ObjectMeta q = nmstatev1beta1.ObjectMeta policy /\
        nmstatev1beta1.Spec q = nmstatev1beta1.Spec policy).
Proof.
  split; intros pre q r post Heq.
  - apply Update_write_provenance in Heq
      as (pre' & policy & enactments & nodes & ta & tb & -> & ->).
    eexists pre', policy, _. unfold fetched.
    split; [reflexivity|]. repeat split. repeat constructor.
  - apply Reset_write_provenance in Heq as (pre' & policy & -> & ->).
    exists pre', policy, []. repeat split. constructor.
Qed.

End Frame.

(** ** Concrete runs *)

Module Runs.

Import fake.
Import flaky.
Local Open Scope string_scope.

Local Abbreviation Degraded := nmstate.NodeNetworkConfigurationPolicyConditionDegraded.
Local Abbreviation Available := nmstate.NodeNetworkConfigurationPolicyConditionAvailable.





(** The node was configured when the first attempt read its report; a
    rival reports a failure and touches the policy before the write.
    The write is rejected, and the second attempt persists the failure
    it read itself. *)
Lemma Update_conflict_refetch_witness :
  events (update contested)
  = (fetched (error := error) label key vlan [configured "a"] [node "a"] 100 101
     ++ EvStatusUpdate
          (persisted enactmentconditions.Count vlan [configured "a"] [node "a"] 100 101)
          (Some (Conflict "vlan"))
     :: fetched (error := error) label key (bump vlan) [failing "a"] [node "a"] 102 103
     ++ EvStatusUpdate
          (persisted enactmentconditions.Count (bump vlan) [failing "a"]
             [node "a"] 102 103)
          None
     :: [])%list /\
  conditionIs
    (policyConditions
       (persisted enactmentconditions.Count (bump vlan) [failing "a"]
          [node "a"] 102 103))
    Degraded "True" "FailedToConfigure" "1/1 nodes failed to configure" /\
  exists mid' policy enactments nodes ta tb,
    fetched (error := error) label key (bump vlan) [failing "a"] [node "a"] 102 103
    = (mid' ++ fetched (error := error) label key policy enactments nodes ta tb)%list /\
    persisted enactmentconditions.Count (bump vlan) [failing "a"] [node "a"] 102 103
    = persisted enactmentconditions.Count policy enactments nodes ta tb /\
    IsConflict (Conflict "vlan") = true /\
    @nil (Event error string) = [] /\
    value (update contested) = None.
Proof.
  split; [vm_compute; reflexivity|].
  split; [vm_compute; eexists; repeat split|].
  apply (Update_conflict_refetch enactmentconditions.Count label key contested
           (fetched (error := error) label key vlan [configured "a"] [node "a"] 100 101)
           (persisted enactmentconditions.Count vlan [configured "a"] [node "a"] 100 101)
           (Conflict "vlan")
           (fetched (error := error) label key (bump vlan) [failing "a"] [node "a"] 102 103)
           (persisted enactmentconditions.Count (bump vlan) [failing "a"]
              [node "a"] 102 103)
           []).
  vm_compute. reflexivity.
Defined.

(** The policy is gone; the nodes cannot be listed; a rival deletes the
    policy before the write; the first [Get] is answered with a
    conflict and a second attempt follows. *)
Lemma Update_errors_witness :
  stopsWith (update lost) [] []
    (Wrapped (NotFound "vlan") "getting policy failed") /\
  stopsWith (update nodeless) (firstn 2 (events (update nodeless))) []
    (Wrapped (Unavailable "pods")
       "getting nodes running kubernets-nmstate pods failed") /\
  stopsWith (update vanishing) (firstn 5 (events (update vanishing))) []
    (NotFound "vlan") /\
  IsConflict (Wrapped (Conflict "vlan") "getting policy failed") = true /\
  exists x post',
    skipn 1 (events (Update enactmentconditions.Count label key hiccup))
    = EvGet key x :: post'.
Proof.
  destruct (Update_errors enactmentconditions.Count label key lost)
    as (Hget & _).
  destruct (Update_errors enactmentconditions.Count label key nodeless)
    as (_ & _ & Hnodes & _).
  destruct (Update_errors enactmentconditions.Count label key vanishing)
    as (_ & _ & _ & _ & Hwrite & _).
  destruct (Update_errors enactmentconditions.Count label key hiccup)
    as (_ & _ & _ & _ & _ & _ & _ & _ & Hfetch).
  split; [|split; [|split]].
  - apply (Hget [] key (NotFound "vlan") []); [reflexivity | now left].
  - apply (Hnodes (firstn 2 (events (update nodeless))) (Unavailable "pods") []);
      [vm_compute; reflexivity | now left].
  - apply (Hwrite (firstn 5 (events (update vanishing)))
             (persisted enactmentconditions.Count vlan [configured "a"]
                [node "a"] 100 101)
             (NotFound "vlan") []);
      [vm_compute; reflexivity | reflexivity].
  - assert (Hcalls :
              events (Update enactmentconditions.Count label key hiccup)
              = ([] ++ EvGet key (Err (Conflict "vlan"))
                 :: skipn 1 (events (Update enactmentconditions.Count label
                                       key hiccup)))%list)
      by (vm_compute; reflexivity).
    destruct (Hfetch [] (EvGet key (Err (Conflict "vlan")))
                (skipn 1 (events (Update enactmentconditions.Count label
                                    key hiccup)))
                (Wrapped (Conflict "vlan") "getting policy failed")
                Hcalls eq_refl) as (Hmore & Hretry).
    split.
    + apply Hmore. vm_compute. discriminate.
    + exact (Hretry eq_refl).
Defined.

(** The first [Get] of [Update] is answered with a conflict, which is
    still a conflict once wrapped: the fetch has failed, and [Update]
    goes on, computes the verdict from a second fetch, persists it and
    returns no error. *)
Lemma Update_errors_counterexample :
  events (Update enactmentconditions.Count label key hiccup)
  = (EvGet key (Err (Conflict "vlan"))
     :: fetched (error := error) label key vlan healthyReports threeNodes 100 101
     ++ [EvStatusUpdate
           (persisted enactmentconditions.Count vlan healthyReports threeNodes
              100 101)
           None])%list /\
  value (Update enactmentconditions.Count label key hiccup) = None /\
  isPersisted
    (EvStatusUpdate (error := error)
       (persisted enactmentconditions.Count vlan healthyReports threeNodes
          100 101)
       None) = true /\
  ((forall pre k e post,
       events (Update enactmentconditions.Count label key hiccup)
       = (pre ++ EvGet k (Err e) :: post)%list ->
       stopsWith (Update enactmentconditions.Count label key hiccup)
         pre post (Wrap e "getting policy failed")) ->
   False).
Proof.
  assert (Hcalls :
            events (Update enactmentconditions.Count label key hiccup)
            = ([] ++ EvGet key (Err (Conflict "vlan"))
               :: fetched (error := error) label key vlan healthyReports
                    threeNodes 100 101
               ++ [EvStatusUpdate
                     (persisted enactmentconditions.Count vlan healthyReports
                        threeNodes 100 101)
                     None])%list)
    by (vm_compute; reflexivity).
  split; [exact Hcalls|]. split; [vm_compute; reflexivity|].
  split; [reflexivity|].
  intros Hfinal.
  destruct (Hfinal _ _ _ _ Hcalls) as (Hnil & _). discriminate Hnil.
Qed.

(** The policy carries two conditions, and a rival touches it before
    the first write of [Reset]: the write is rejected, [Reset] starts
    over with a fresh [Get], and the policy it persists, like the one it
    first tried to write, has no condition. *)
Lemma Reset_clears_witness :
  List.length (policyConditions vlanStale) = 2%nat /\
  events (reset contestedStale)
  = [ EvGet key (Ok vlanStale);
      EvStatusUpdate (nmstatev1beta1.withConditions [] vlanStale)
        (Some (Conflict "vlan"));
      EvGet key (Ok (bump vlanStale));
      EvStatusUpdate (nmstatev1beta1.withConditions [] (bump vlanStale)) None ] /\
  (exists x rest, events (reset contestedStale) = EvGet key x :: rest) /\
  (exists written r post',
      skipn 1 (events (reset contestedStale))
      = EvStatusUpdate written r :: post' /\
      policyConditions written = [] /\
      written = nmstatev1beta1.withConditions [] vlanStale) /\
  (exists x post',
      skipn 2 (events (reset contestedStale)) = EvGet key x :: post') /\
  policyConditions (nmstatev1beta1.withConditions [] (bump vlanStale)) = [] /\
  value (reset contestedStale) = None /\
  map policyConditions (policies (final (reset contestedStale))) = [[]].
Proof.
  destruct (Reset_clears key contestedStale)
    as (_ & _ & Hdone & Hretry & _ & _ & Hfirst & Hfetch & Hwritten & _).
  split; [reflexivity|]. split; [vm_compute; reflexivity|].
  split; [exact Hfirst|]. split; [|split; [|split; [|split]]].
  - destruct (Hfetch [] key vlanStale (skipn 1 (events (reset contestedStale))))
      as (written & r & post' & Hnext & Hnone & Hwritten' & _);
      [vm_compute; reflexivity|].
    now exists written, r, post'.
  - apply (Hretry [EvGet key (Ok vlanStale)]
             (nmstatev1beta1.withConditions [] vlanStale) (Conflict "vlan")
             (skipn 2 (events (reset contestedStale))));
      [vm_compute; reflexivity | reflexivity].
  - apply (Hwritten (firstn 3 (events (reset contestedStale)))
             (nmstatev1beta1.withConditions [] (bump vlanStale)) None []).
    vm_compute. reflexivity.
  - apply (Hdone (firstn 3 (events (reset contestedStale)))
             (nmstatev1beta1.withConditions [] (bump vlanStale)) []).
    vm_compute. reflexivity.
  - vm_compute. reflexivity.
Defined.

(** The policy written by the second attempt of the contested [Update]
    has the metadata and the spec its [Get] returned. *)
Lemma writes_touch_conditions_only_witness :
  exists pre' policy between,
    firstn 11 (events (update contested))
    = (pre' ++ EvGet key (Ok policy) :: between)%list /\
    Forall (fun ev => isGet ev = false) between /\
    persisted enactmentconditions.Count (bump vlan) [failing "a"] [node "a"] 102 103
    = nmstatev1beta1.withConditions
        (policyConditions
           (persisted enactmentconditions.Count (bump vlan) [failing "a"]
              [node "a"] 102 103))
        policy /\
    nmstatev1beta1.ObjectMeta
      (persisted enactmentconditions.Count (bump vlan) [failing "a"] [node "a"] 102 103)
    = nmstatev1beta1.ObjectMeta policy /\
    nmstatev1beta1.Spec
      (persisted enactmentconditions.Count (bump vlan) [failing "a"] [node "a"] 102 103)
    = nmstatev1beta1.Spec policy.
Proof.
  apply (proj1 (writes_touch_conditions_only enactmentconditions.Count label
                  key contested)
           (firstn 11 (events (update contested)))
           (persisted enactmentconditions.Count (bump vlan) [failing "a"]
              [node "a"] 102 103)
           None []).
  vm_compute. reflexivity.
Defined.

End Runs.

(** ** More on the verdict *)

Lemma conditionIs_reason conditions t s r m :
  conditionIs conditions t s r m -> reasonOf conditions t = Some r.
Proof. intros Hc. now apply conditionIs_projections in Hc. Qed.

(** Whatever the tally, the decision leaves one of four verdicts. *)
Lemma conditionsAt_verdict ta tb c n conditions :
  exists sd sa reason md ma,
    conditionIs (conditionsAt ta tb c n conditions)
      nmstate.NodeNetworkConfigurationPolicyConditionDegraded sd reason md /\
    conditionIs (conditionsAt ta tb c n conditions)
      nmstate.NodeNetworkConfigurationPolicyConditionAvailable sa reason ma /\
    ((sd = corev1.ConditionUnknown /\ sa = corev1.ConditionUnknown /\
      reason = nmstate.NodeNetworkConfigurationPolicyConditionConfigurationProgressing) \/
     (sd = corev1.ConditionFalse /\ sa = corev1.ConditionTrue /\
      (reason = nmstate.NodeNetworkConfigurationPolicyConditionSuccessfullyConfigured \/
       reason = nmstate.NodeNetworkConfigurationPolicyConditionConfigurationNoMatchingNode)) \/
     (sd = corev1.ConditionTrue /\ sa = corev1.ConditionFalse /\
      reason = nmstate.NodeNetworkConfigurationPolicyConditionFailedToConfigure)).
Proof.
  destruct (Z.lt_ge_cases (numberOfFinishedEnactments c) n) as [Hlt | Hge].
  { destruct (conditionsAt_progressing ta tb c n conditions Hlt) as [Hd Ha].
    do 5 eexists. split; [exact Hd | split; [exact Ha|]]. left. repeat split. }
  destruct (Z.eq_dec (enactmentconditions.Matching c) 0) as [Hm | Hm].
  { destruct (conditionsAt_notMatching ta tb c n conditions Hge Hm) as [Hd Ha].
    do 5 eexists. split; [exact Hd | split; [exact Ha|]].
    right. left. repeat split. now right. }
  destruct (Z.lt_ge_cases 0 (enactmentconditions.Failed c)) as [Hf | Hf].
  { destruct (conditionsAt_failed ta tb c n conditions Hge Hm (or_introl Hf))
      as [Hd Ha].
    do 5 eexists. split; [exact Hd | split; [exact Ha|]]. right. right. repeat split. }
  destruct (Z.lt_ge_cases 0 (enactmentconditions.Aborted c)) as [Hb | Hb].
  { destruct (conditionsAt_failed ta tb c n conditions Hge Hm (or_intror Hb))
      as [Hd Ha].
    do 5 eexists. split; [exact Hd | split; [exact Ha|]]. right. right. repeat split. }
  destruct (conditionsAt_success ta tb c n conditions Hge Hm Hf Hb) as [Hd Ha].
  do 5 eexists. split; [exact Hd | split; [exact Ha|]].
  right. left. repeat split. now left.
Qed.

(** The verdict is a function of the tally and of the number of nodes:
    neither the conditions the policy had nor the clock enter it. *)
Lemma conditionsAt_sameVerdict ta tb ta' tb' c n conditions conditions' :
  sameVerdict (conditionsAt ta tb c n conditions)
              (conditionsAt ta' tb' c n conditions').
Proof.
  assert (Hsame : forall l l' sd sa r md ma,
             conditionIs l nmstate.NodeNetworkConfigurationPolicyConditionDegraded sd r md ->
             conditionIs l nmstate.NodeNetworkConfigurationPolicyConditionAvailable sa r ma ->
             conditionIs l' nmstate.NodeNetworkConfigurationPolicyConditionDegraded sd r md ->
             conditionIs l' nmstate.NodeNetworkConfigurationPolicyConditionAvailable sa r ma ->
             sameVerdict l l').
  { intros l l' sd sa r md ma Hd Ha Hd' Ha' t [-> | ->].
    - apply conditionIs_projections in Hd as (-> & -> & ->).
      apply conditionIs_projections in Hd' as (-> & -> & ->). repeat split.
    - apply conditionIs_projections in Ha as (-> & -> & ->).
      apply conditionIs_projections in Ha' as (-> & -> & ->). repeat split. }
  destruct (Z.lt_ge_cases (numberOfFinishedEnactments c) n) as [Hlt | Hge].
  { destruct (conditionsAt_progressing ta tb c n conditions Hlt).
    destruct (conditionsAt_progressing ta' tb' c n conditions' Hlt).
    eapply Hsame; eassumption. }
  destruct (Z.eq_dec (enactmentconditions.Matching c) 0) as [Hm | Hm].
  { destruct (conditionsAt_notMatching ta tb c n conditions Hge Hm).
    destruct (conditionsAt_notMatching ta' tb' c n conditions' Hge Hm).
    eapply Hsame; eassumption. }
  destruct (Z.lt_ge_cases 0 (enactmentconditions.Failed c)) as [Hf | Hf].
  { destruct (conditionsAt_failed ta tb c n conditions Hge Hm (or_introl Hf)).
    destruct (conditionsAt_failed ta' tb' c n conditions' Hge Hm (or_introl Hf)).
    eapply Hsame; eassumption. }
  destruct (Z.lt_ge_cases 0 (enactmentconditions.Aborted c)) as [Hb | Hb].
  { destruct (conditionsAt_failed ta tb c n conditions Hge Hm (or_intror Hb)).
    destruct (conditionsAt_failed ta' tb' c n conditions' Hge Hm (or_intror Hb)).
    eapply Hsame; eassumption. }
  destruct (conditionsAt_success ta tb c n conditions Hge Hm Hf Hb).
  destruct (conditionsAt_success ta' tb' c n conditions' Hge Hm Hf Hb).
  eapply Hsame; eassumption.
Qed.

(** The reason written tells which branch of the decision was taken. *)
Lemma conditionsAt_reason ta tb c n conditions :
  let reason :=
    reasonOf (conditionsAt ta tb c n conditions)
      nmstate.NodeNetworkConfigurationPolicyConditionAvailable in
  (reason = Some nmstate.NodeNetworkConfigurationPolicyConditionConfigurationProgressing
   <-> numberOfFinishedEnactments c < n) /\
  (reason = Some nmstate.NodeNetworkConfigurationPolicyConditionConfigurationNoMatchingNode
   <-> n <= numberOfFinishedEnactments c /\ enactmentconditions.Matching c = 0) /\
  (reason = Some nmstate.NodeNetworkConfigurationPolicyConditionFailedToConfigure
   <-> n <= numberOfFinishedEnactments c /\ enactmentconditions.Matching c <> 0 /\
       (0 < enactmentconditions.Failed c \/ 0 < enactmentconditions.Aborted c)) /\
  (reason = Some nmstate.NodeNetworkConfigurationPolicyConditionSuccessfullyConfigured
   <-> n <= numberOfFinishedEnactments c /\ enactmentconditions.Matching c <> 0 /\
       enactmentconditions.Failed c <= 0 /\ enactmentconditions.Aborted c <= 0).
Proof.
  cbv zeta.
  destruct (Z.lt_ge_cases (numberOfFinishedEnactments c) n) as [Hlt | Hge].
  { destruct (conditionsAt_progressing ta tb c n conditions Hlt) as [_ Ha].
    rewrite (conditionIs_reason _ _ _ _ _ Ha).
    repeat split; intros; try discriminate; try lia; tauto. }
  destruct (Z.eq_dec (enactmentconditions.Matching c) 0) as [Hm | Hm].
  { destruct (conditionsAt_notMatching ta tb c n conditions Hge Hm) as [_ Ha].
    rewrite (conditionIs_reason _ _ _ _ _ Ha).
    repeat split; intros; try discriminate; try lia; tauto. }
  destruct (Z.lt_ge_cases 0 (enactmentconditions.Failed c)) as [Hf | Hf].
  { destruct (conditionsAt_failed ta tb c n conditions Hge Hm (or_introl Hf))
      as [_ Ha].
    rewrite (conditionIs_reason _ _ _ _ _ Ha).
    repeat split; intros; try discriminate; try lia; tauto. }
  destruct (Z.lt_ge_cases 0 (enactmentconditions.Aborted c)) as [Hb | Hb].
  { destruct (conditionsAt_failed ta tb c n conditions Hge Hm (or_intror Hb))
      as [_ Ha].
    rewrite (conditionIs_reason _ _ _ _ _ Ha).
    repeat split; intros; try discriminate; try lia; tauto. }
  destruct (conditionsAt_success ta tb c n conditions Hge Hm Hf Hb) as [_ Ha].
  rewrite (conditionIs_reason _ _ _ _ _ Ha).
  repeat split; intros; try discriminate; try lia; tauto.
Qed.

(** ** More on the retry loop *)

Section RetryEnds.

Context {error PolicySpec W : Type}.
Variable retriable : error -> bool.
Variable fn : M error PolicySpec W (option error).
Hypothesis fn_like : forall w, attemptLike (fn w).

(** A loop with some budget ends with an attempt, whose value it
  returns. *)
Lemma last_attempt steps lastErr w :
(0 < steps)%nat ->
exists before w',
  attempts steps retriable fn w = before ++ [fn w'] /\
  value (retry.OnError steps retriable fn lastErr w) = value (fn w') /\
  events (retry.OnError steps retriable fn lastErr w)
  = callsOf before ++ events (fn w').
Proof.
intros Hsteps.
destruct (exists_last (attempts_nonempty retriable fn steps w Hsteps))
  as (before & a & Hatt).
assert (Hin : In a (attempts steps retriable fn w))
  by (rewrite Hatt; apply in_elt).
apply attempts_runs in Hin as [w' ->].
exists before, w'. split; [exact Hatt|]. split.
- rewrite OnError_value, Hatt, map_app. cbn [map]. apply last_last.
- rewrite OnError_events, Hatt. unfold callsOf.
  rewrite map_app, concat_app. cbn [map List.concat]. now rewrite app_nil_r.
Qed.

(** A returned error that is retriable means the budget is used up. *)
Lemma retriable_error_spends_budget steps lastErr w e :
(0 < steps)%nat ->
value (retry.OnError steps retriable fn lastErr w) = Some e ->
retriable e = true ->
List.length (filter isGet (events (retry.OnError steps retriable fn lastErr w)))
= steps.
Proof.
intros Hsteps Hv He.
destruct (last_attempt steps lastErr w Hsteps) as (before & w' & Hatt & Hval & _).
rewrite Hval in Hv.
rewrite OnError_events. fold (callsOf (attempts steps retriable fn w)).
rewrite callsOf_gets by (apply (attempts_like retriable fn fn_like)).
destruct (attempts_last _ _ _ _ _ _ Hatt) as [Hno | Hlen].
- rewrite (Hno _ Hv) in He. discriminate He.
- now rewrite Hatt.
Qed.

(** At most one write per attempt. *)
Lemma attemptLike_writes (a : Run error PolicySpec W (option error)) :
attemptLike a -> (List.length (filter isWrite (events a)) <= 1)%nat.
Proof.
intros [_ Hwrite].
destruct (filter isWrite (events a)) as [|ev l] eqn:Hf; [cbn; lia|].
assert (Hin : In ev (filter isWrite (events a))) by (rewrite Hf; now left).
apply filter_In in Hin as [Hin Hev].
destruct ev as [| | | |q r]; try discriminate Hev.
apply in_split in Hin as (l1 & l2 & Heq).
destruct (Hwrite _ _ _ _ Heq) as [-> _].
rewrite Heq, filter_app in Hf. cbn [filter isWrite] in Hf.
destruct (filter isWrite l1) as [|ev' l'] eqn:Hl1.
- cbn [app filter] in Hf. injection Hf as <-. cbn. lia.
- exfalso.
  assert (Hin' : In ev' (filter isWrite l1)) by (rewrite Hl1; now left).
  apply filter_In in Hin' as [Hin' Hev'].
  destruct ev' as [| | | |q' r']; try discriminate Hev'.
  apply in_split in Hin' as (m1 & m2 & ->).
  rewrite <- app_assoc in Heq. cbn [app] in Heq.
  destruct (Hwrite _ _ _ _ Heq) as [Hnil _].
  destruct m2; discriminate Hnil.
Qed.

Lemma callsOf_writes (l : list (Run error PolicySpec W (option error))) :
(forall a, In a l -> attemptLike a) ->
(List.length (filter isWrite (callsOf l)) <= List.length l)%nat.
Proof.
induction l as [|a l IH]; intros Hlike; [cbn; lia|].
unfold callsOf in *. cbn [map List.concat].
rewrite filter_app, length_app. cbn [List.length].
pose proof (attemptLike_writes a (Hlike a (or_introl eq_refl))).
specialize (IH (fun b Hb => Hlike b (or_intror Hb))). lia.
Qed.

(** The loop writes at most [steps] times, and at most one write is
  accepted. *)
Lemma OnError_writes steps lastErr w :
(List.length (filter isWrite (events (retry.OnError steps retriable fn lastErr w)))
 <= steps)%nat /\
(List.length (filter isPersisted (events (retry.OnError steps retriable fn lastErr w)))
 <= 1)%nat.
Proof.
split.
- rewrite OnError_events. fold (callsOf (attempts steps retriable fn w)).
  pose proof (callsOf_writes _ (attempts_like retriable fn fn_like steps w)).
  pose proof (attempts_length retriable fn steps w). lia.
- destruct (events (retry.OnError steps retriable fn lastErr w)) as [|ev l] eqn:Hev;
    [cbn; lia|].
  destruct (exists_last (l := ev :: l)) as (pre & x & Heq); [discriminate|].
  rewrite Heq in *.
  pose proof (persisted_is_last retriable fn fn_like _ _ _ _ _ _ Hev) as Hpre.
  rewrite filter_app, length_app.
  assert (Hnone : filter isPersisted pre = []).
  { clear - Hpre. induction Hpre as [|y pre Hy _ IH]; [reflexivity|].
    cbn [filter]. now rewrite Hy. }
  rewrite Hnone. cbn [filter List.length]. destruct (isPersisted x); cbn; lia.
Qed.

End RetryEnds.

(** ** More on [Update] and [Reset] *)

Section Coverage.

Context {error PolicySpec W : Type}.
Context `{ApiErrors error} `{Clock W} `{Client error PolicySpec W}.

Variable Count :
list nmstatev1beta1.NodeNetworkConfigurationEnactment -> Z ->
enactmentconditions.EnactmentCount.
Variable EnactmentPolicyLabel : string.

Local Abbreviation Degraded := nmstate.NodeNetworkConfigurationPolicyConditionDegraded.
Local Abbreviation Available := nmstate.NodeNetworkConfigurationPolicyConditionAvailable.

(** The fetch that precedes a listing of the enactments or of the nodes
  in an attempt of [Update]. *)
Lemma UpdateAttempt_reads key (calls : list (Event error PolicySpec)) v p ev q :
UpdateAttempt Count EnactmentPolicyLabel key calls v ->
calls = p ++ ev :: q ->
match ev with
| EvList f _ =>
    exists policy,
      p = [EvGet key (Ok policy)] /\
      f = [(EnactmentPolicyLabel,
            metav1.Name (nmstatev1beta1.ObjectMeta policy))]
| EvNodes _ =>
    exists policy enactments,
      p = [EvGet key (Ok policy);
           EvList [(EnactmentPolicyLabel,
                    metav1.Name (nmstatev1beta1.ObjectMeta policy))]
             (Ok enactments)]
| _ => True
end.
Proof.
intros [e | policy e | policy enactments e | policy enactments nodes ta tb r] Heq;
  unfold fetched, policyLabelFilter in *; cbn [app] in Heq; split_calls Heq;
  subst; cbn; eauto.
Qed.

(** X1.  Every policy [Update] writes carries both conditions, with one
  reason on both and one of three pairs of statuses: [Unknown] and
  [Unknown] while progressing, [False] and [True] on success or when no
  node matches, [True] and [False] on failure.  [Degraded] and
  [Available] are never both [True], nor both [False]. *)
Theorem Update_writes_one_verdict key (w : W) pre q r post :
events (Update Count EnactmentPolicyLabel key w)
= pre ++ EvStatusUpdate q r :: post ->
exists sd sa reason md ma,
  conditionIs (policyConditions q) Degraded sd reason md /\
  conditionIs (policyConditions q) Available sa reason ma /\
  ((sd = corev1.ConditionUnknown /\ sa = corev1.ConditionUnknown /\
    reason = nmstate.NodeNetworkConfigurationPolicyConditionConfigurationProgressing) \/
   (sd = corev1.ConditionFalse /\ sa = corev1.ConditionTrue /\
    (reason = nmstate.NodeNetworkConfigurationPolicyConditionSuccessfullyConfigured \/
     reason = nmstate.NodeNetworkConfigurationPolicyConditionConfigurationNoMatchingNode)) \/
   (sd = corev1.ConditionTrue /\ sa = corev1.ConditionFalse /\
    reason = nmstate.NodeNetworkConfigurationPolicyConditionFailedToConfigure)).
Proof.
intros Heq.
apply Update_write_provenance in Heq
  as (pre' & policy & enactments & nodes & ta & tb & _ & ->).
rewrite persisted_conditions. apply conditionsAt_verdict.
Qed.

(** X2.  The reason [Update] writes after a fetch tells which branch of
  its decision was taken, in both directions: progressing exactly when
  fewer enactments finished than there are nodes; no matching node
  exactly when all finished and the matching count is zero; failed
  exactly when all finished, some node matches and the failed or the
  aborted count is positive; success exactly in the remaining case. *)
Theorem Update_reason_reads_the_tally key (w : W) pre policy f enactments nodes post :
let c := countOf Count policy enactments in
events (Update Count EnactmentPolicyLabel key w)
= pre ++ EvGet key (Ok policy) :: EvList f (Ok enactments)
      :: EvNodes (Ok nodes) :: post ->
exists ta tb written r post',
  post = EvNow ta :: EvNow tb :: EvStatusUpdate written r :: post' /\
  let reason := reasonOf (policyConditions written) Available in
  (reason = Some nmstate.NodeNetworkConfigurationPolicyConditionConfigurationProgressing
   <-> numberOfFinishedEnactments c < len nodes) /\
  (reason = Some nmstate.NodeNetworkConfigurationPolicyConditionConfigurationNoMatchingNode
   <-> len nodes <= numberOfFinishedEnactments c /\
       enactmentconditions.Matching c = 0) /\
  (reason = Some nmstate.NodeNetworkConfigurationPolicyConditionFailedToConfigure
   <-> len nodes <= numberOfFinishedEnactments c /\
       enactmentconditions.Matching c <> 0 /\
       (0 < enactmentconditions.Failed c \/ 0 < enactmentconditions.Aborted c)) /\
  (reason = Some nmstate.NodeNetworkConfigurationPolicyConditionSuccessfullyConfigured
   <-> len nodes <= numberOfFinishedEnactments c /\
       enactmentconditions.Matching c <> 0 /\
       enactmentconditions.Failed c <= 0 /\ enactmentconditions.Aborted c <= 0).
Proof.
intros c Heq.
apply Update_fetch_write in Heq as (ta & tb & r & post' & ->).
eexists ta, tb, _, r, post'. split; [reflexivity|].
rewrite persisted_conditions. apply conditionsAt_reason.
Qed.

(** X3.  The verdict [Update] writes depends on the tally and on the
  number of nodes only: two reconciliations that count the same and see
  as many nodes write the same status, reason and message on both
  conditions, whatever conditions the two policies had before and
  whatever the clock reads. *)
Theorem Update_verdict_forgets_conditions
key (w : W) pre policy f enactments nodes post
key' (w' : W) pre' policy' f' enactments' nodes' post' :
events (Update Count EnactmentPolicyLabel key w)
= pre ++ EvGet key (Ok policy) :: EvList f (Ok enactments)
      :: EvNodes (Ok nodes) :: post ->
events (Update Count EnactmentPolicyLabel key' w')
= pre' ++ EvGet key' (Ok policy') :: EvList f' (Ok enactments')
      :: EvNodes (Ok nodes') :: post' ->
countOf Count policy enactments = countOf Count policy' enactments' ->
len nodes = len nodes' ->
exists ta tb written r rest ta' tb' written' r' rest',
  post = EvNow ta :: EvNow tb :: EvStatusUpdate written r :: rest /\
  post' = EvNow ta' :: EvNow tb' :: EvStatusUpdate written' r' :: rest' /\
  sameVerdict (policyConditions written) (policyConditions written').
Proof.
intros Heq Heq' Hc Hn.
apply Update_fetch_write in Heq as (ta & tb & r & rest & ->).
apply Update_fetch_write in Heq' as (ta' & tb' & r' & rest' & ->).
eexists ta, tb, _, r, rest, ta', tb', _, r', rest'.
split; [reflexivity|]. split; [reflexivity|].
rewrite !persisted_conditions, Hc, Hn. apply conditionsAt_sameVerdict.
Qed.

(** X4.  [Update] and [Reset] return no error exactly when their last
  call is a write the store accepted. *)
Theorem nil_iff_persisted key (w : W) :
(value (Update Count EnactmentPolicyLabel key w) = None <->
 exists pre q,
   events (Update Count EnactmentPolicyLabel key w)
   = pre ++ [EvStatusUpdate q None]) /\
(value (Reset (PolicySpec := PolicySpec) key w) = None <->
 exists pre q,
   events (Reset (PolicySpec := PolicySpec) key w)
   = pre ++ [EvStatusUpdate q None]).
Proof.
split; split.
- rewrite Update_loop. intros Hv.
  destruct (last_attempt IsConflict (Update_func1 Count EnactmentPolicyLabel key)
              5 None w) as (before & w' & _ & Hval & Hev); [lia|].
  rewrite Hv in Hval.
  pose proof (Update_func1_attempt Count EnactmentPolicyLabel key w') as Hshape.
  rewrite <- Hval in Hshape.
  remember (events (Update_func1 Count EnactmentPolicyLabel key w')) as calls.
  inversion Hshape as [| | |p es ns ta tb r Hcalls Hr]. subst r.
  exists (callsOf before ++ fetched EnactmentPolicyLabel key p es ns ta tb),
    (persisted Count p es ns ta tb).
  rewrite Hev, <- Hcalls, app_assoc. reflexivity.
- intros (pre & q & Heq). rewrite Update_loop in *.
  apply after_write in Heq; [|apply Update_func1_like]. cbv zeta in Heq.
  destruct Heq as (Hnone & _). now apply Hnone.
- rewrite Reset_loop. intros Hv.
  destruct (last_attempt IsConflict (Reset_func1 (PolicySpec := PolicySpec) key)
              5 None w) as (before & w' & _ & Hval & Hev); [lia|].
  rewrite Hv in Hval.
  pose proof (Reset_func1_attempt (PolicySpec := PolicySpec) key w') as Hshape.
  rewrite <- Hval in Hshape.
  remember (events (Reset_func1 (PolicySpec := PolicySpec) key w')) as calls.
  inversion Hshape as [|p r Hcalls Hr]. subst r.
  exists (callsOf before ++ [EvGet key (Ok p)]),
    (nmstatev1beta1.withConditions [] p).
  rewrite Hev, <- Hcalls, <- app_assoc. reflexivity.
- intros (pre & q & Heq). rewrite Reset_loop in *.
  apply after_write in Heq; [|apply Reset_func1_like]. cbv zeta in Heq.
  destruct Heq as (Hnone & _). now apply Hnone.
Qed.

(** X5.  One call of [Update], and one of [Reset], sends at most five
  status writes, of which the store accepts at most one. *)
Theorem writes_are_bounded key (w : W) :
((List.length (filter isWrite (events (Update Count EnactmentPolicyLabel key w)))
  <= 5)%nat /\
 (List.length (filter isPersisted (events (Update Count EnactmentPolicyLabel key w)))
  <= 1)%nat) /\
((List.length (filter isWrite (events (Reset (PolicySpec := PolicySpec) key w)))
  <= 5)%nat /\
 (List.length (filter isPersisted (events (Reset (PolicySpec := PolicySpec) key w)))
  <= 1)%nat).
Proof.
split.
- rewrite Update_loop. apply OnError_writes. apply Update_func1_like.
- rewrite Reset_loop. apply OnError_writes. apply Reset_func1_like.
Qed.

(** X6.  When [Update] returns an error, its last call is the one that
  failed: a fetch, whose error comes back wrapped with the context of
  that fetch, or the status write, whose error comes back as it is.  No
  write was accepted, and if the error returned is a conflict, five
  attempts were made. *)
Theorem Update_error_origin key (w : W) err :
value (Update Count EnactmentPolicyLabel key w) = Some err ->
(exists pre failed,
    events (Update Count EnactmentPolicyLabel key w) = pre ++ [failed] /\
    match failed with
    | EvGet _ (Err e) => err = Wrap e "getting policy failed"
    | EvList _ (Err e) => err = Wrap e "getting enactments failed"
    | EvNodes (Err e) =>
        err = Wrap e "getting nodes running kubernets-nmstate pods failed"
    | EvStatusUpdate _ (Some e) => err = e
    | _ => False
    end) /\
Forall (fun ev => isPersisted ev = false)
  (events (Update Count EnactmentPolicyLabel key w)) /\
(IsConflict err = true ->
 List.length (filter isGet (events (Update Count EnactmentPolicyLabel key w)))
 = 5%nat).
Proof.
rewrite Update_loop. intros Hv.
pose proof (Update_func1_like Count EnactmentPolicyLabel key) as Hlike.
destruct (last_attempt IsConflict (Update_func1 Count EnactmentPolicyLabel key)
            5 None w) as (before & w' & _ & Hval & Hev); [lia|].
assert (Horigin :
          exists pre failed,
            events (retry.OnError 5 IsConflict
                      (Update_func1 Count EnactmentPolicyLabel key) None w)
            = pre ++ [failed] /\
            match failed with
            | EvGet _ (Err e) => err = Wrap e "getting policy failed"
            | EvList _ (Err e) => err = Wrap e "getting enactments failed"
            | EvNodes (Err e) =>
                err = Wrap e "getting nodes running kubernets-nmstate pods failed"
            | EvStatusUpdate _ (Some e) => err = e
            | _ => False
            end).
{ rewrite Hv in Hval.
  pose proof (Update_func1_attempt Count EnactmentPolicyLabel key w') as Hshape.
  rewrite <- Hval in Hshape.
  remember (events (Update_func1 Count EnactmentPolicyLabel key w')) as calls.
  inversion Hshape as [e Hcalls He | p e Hcalls He | p es e Hcalls He
                      | p es ns ta tb r Hcalls Hr]; subst.
  - exists (callsOf before), (EvGet key (Err e)).
    split; [now rewrite Hev, <- Hcalls | reflexivity].
  - exists (callsOf before ++ [EvGet key (Ok p)]),
      (EvList (policyLabelFilter EnactmentPolicyLabel p) (Err e)).
    split; [now rewrite Hev, <- Hcalls, <- app_assoc | reflexivity].
  - exists (callsOf before
            ++ [EvGet key (Ok p);
                EvList (policyLabelFilter EnactmentPolicyLabel p) (Ok es)]),
      (EvNodes (Err e)).
    split; [now rewrite Hev, <- Hcalls, <- app_assoc | reflexivity].
  - exists (callsOf before ++ fetched EnactmentPolicyLabel key p es ns ta tb),
      (EvStatusUpdate (persisted Count p es ns ta tb) (Some err)).
    split; [now rewrite Hev, <- Hcalls, app_assoc | reflexivity]. }
split; [exact Horigin|]. split.
- destruct Horigin as (pre & failed & Hcalls & Hfailed).
  rewrite Hcalls. apply Forall_app. split.
  + exact (persisted_is_last _ _ Hlike _ _ _ _ _ _ Hcalls).
  + constructor; [|constructor].
    destruct failed as [k [p | e] | f [es | e] | [ns | e] | t | q [e|]];
      try contradiction; reflexivity.
- intros He.
  exact (retriable_error_spends_budget _ _ Hlike 5 None w err
           (Nat.lt_0_succ 4) Hv He).
Qed.

(** X7.  The reads of [Update].  Its first call is the [Get] of the key
  it was given, and it never gets another key.  It lists enactments
  only right after a [Get] that returned a policy, selecting on the
  policy label with the name of the policy returned (not the name in
  the key); it lists the nodes only right after that listing went
  through. *)
Theorem Update_reads_in_order key (w : W) :
let run := Update Count EnactmentPolicyLabel key w in
(exists x rest, events run = EvGet key x :: rest) /\
(forall pre k x post, events run = pre ++ EvGet k x :: post -> k = key) /\
(forall pre f x post,
    events run = pre ++ EvList f x :: post ->
    exists pre' policy,
      pre = pre' ++ [EvGet key (Ok policy)] /\
      f = [(EnactmentPolicyLabel,
            metav1.Name (nmstatev1beta1.ObjectMeta policy))]) /\
(forall pre x post,
    events run = pre ++ EvNodes x :: post ->
    exists pre' policy enactments,
      pre = pre' ++ [EvGet key (Ok policy);
                     EvList [(EnactmentPolicyLabel,
                              metav1.Name (nmstatev1beta1.ObjectMeta policy))]
                       (Ok enactments)]).
Proof.
cbv zeta. rewrite Update_loop.
pose proof (Update_func1_like Count EnactmentPolicyLabel key) as Hlike.
split; [|split; [|split]].
- destruct (first_attempt IsConflict (Update_func1 Count EnactmentPolicyLabel key)
              4 None w) as [more Hfirst].
  destruct (UpdateAttempt_head _ _ _ _ _
              (Update_func1_attempt Count EnactmentPolicyLabel key w))
    as (x & rest & Hhead & _).
  exists x, (rest ++ more). rewrite Hfirst, Hhead. reflexivity.
- intros pre k x post Heq.
  apply locate_get in Heq as (before & a & after & Hatt & _ & Hhead);
    [|exact Hlike].
  assert (Hin : In a (attempts 5 IsConflict
                        (Update_func1 Count EnactmentPolicyLabel key) w))
    by (rewrite Hatt; apply in_elt).
  apply attempts_runs in Hin as [w' ->].
  destruct (UpdateAttempt_head _ _ _ _ _
              (Update_func1_attempt Count EnactmentPolicyLabel key w'))
    as (x' & rest & Hev & _).
  rewrite Hev in Hhead. now injection Hhead as -> _.
- intros pre f x post Heq.
  apply locate_call in Heq as (before & a & after & p & q & Hatt & Ha & -> & _).
  assert (Hin : In a (attempts 5 IsConflict
                        (Update_func1 Count EnactmentPolicyLabel key) w))
    by (rewrite Hatt; apply in_elt).
  apply attempts_runs in Hin as [w' ->].
  destruct (UpdateAttempt_reads _ _ _ _ _ _
              (Update_func1_attempt Count EnactmentPolicyLabel key w') Ha)
    as (policy & -> & ->).
  now exists (callsOf before), policy.
- intros pre x post Heq.
  apply locate_call in Heq as (before & a & after & p & q & Hatt & Ha & -> & _).
  assert (Hin : In a (attempts 5 IsConflict
                        (Update_func1 Count EnactmentPolicyLabel key) w))
    by (rewrite Hatt; apply in_elt).
  apply attempts_runs in Hin as [w' ->].
  destruct (UpdateAttempt_reads _ _ _ _ _ _
              (Update_func1_attempt Count EnactmentPolicyLabel key w') Ha)
    as (policy & enactments & ->).
  now exists (callsOf before), policy, enactments.
Qed.

(** X12.  When [Reset] returns an error, its last call is the one that
  failed: the [Get], whose error comes back wrapped with "getting policy
  failed", or the status write, whose error comes back as it is.  No
  write was accepted, and if the error returned is a conflict, five
  attempts were made. *)
Theorem Reset_error_origin key (w : W) err :
value (Reset (PolicySpec := PolicySpec) key w) = Some err ->
(exists pre failed,
    events (Reset (PolicySpec := PolicySpec) key w) = pre ++ [failed] /\
    match failed with
    | EvGet _ (Err e) => err = Wrap e "getting policy failed"
    | EvStatusUpdate _ (Some e) => err = e
    | _ => False
    end) /\
Forall (fun ev => isPersisted ev = false)
  (events (Reset (PolicySpec := PolicySpec) key w)) /\
(IsConflict err = true ->
 List.length (filter isGet (events (Reset (PolicySpec := PolicySpec) key w)))
 = 5%nat).
Proof.
rewrite Reset_loop. intros Hv.
pose proof (Reset_func1_like (PolicySpec := PolicySpec) key) as Hlike.
destruct (last_attempt IsConflict (Reset_func1 (PolicySpec := PolicySpec) key)
            5 None w) as (before & w' & _ & Hval & Hev); [lia|].
assert (Horigin :
          exists pre failed,
            events (retry.OnError 5 IsConflict
                      (Reset_func1 (PolicySpec := PolicySpec) key) None w)
            = pre ++ [failed] /\
            match failed with
            | EvGet _ (Err e) => err = Wrap e "getting policy failed"
            | EvStatusUpdate _ (Some e) => err = e
            | _ => False
            end).
{ rewrite Hv in Hval.
  pose proof (Reset_func1_attempt (PolicySpec := PolicySpec) key w') as Hshape.
  rewrite <- Hval in Hshape.
  remember (events (Reset_func1 (PolicySpec := PolicySpec) key w')) as calls.
  inversion Hshape as [e Hcalls He | p r Hcalls Hr]; subst.
  - exists (callsOf before), (EvGet key (Err e)).
    split; [now rewrite Hev, <- Hcalls | reflexivity].
  - exists (callsOf before ++ [EvGet key (Ok p)]),
      (EvStatusUpdate (nmstatev1beta1.withConditions [] p) (Some err)).
    split; [now rewrite Hev, <- Hcalls, <- app_assoc | reflexivity]. }
split; [exact Horigin|]. split.
- destruct Horigin as (pre & failed & Hcalls & Hfailed).
  rewrite Hcalls. apply Forall_app. split.
  + exact (persisted_is_last _ _ Hlike _ _ _ _ _ _ Hcalls).
  + constructor; [|constructor].
    destruct failed as [k [p | e] | f [es | e] | [ns | e] | t | q [e|]];
      try contradiction; reflexivity.
- intros He.
  exact (retriable_error_spends_budget _ _ Hlike 5 None w err
           (Nat.lt_0_succ 4) Hv He).
Qed.

End Coverage.

(** ** More on the setters *)

Lemma Set_length_bounds now conditions t status reason message :
  (List.length conditions
   <= List.length (nmstate.ConditionList_Set now conditions t status reason message)
   <= S (List.length conditions))%nat.
Proof.
  induction conditions as [|c rest IH]; cbn [nmstate.ConditionList_Set List.length].
  - lia.
  - destruct (String.eqb (nmstate.CondType c) t); cbn [List.length]; lia.
Qed.

Lemma Set_length_present now conditions t status reason message c :
  nmstate.ConditionList_Find conditions t = Some c ->
  List.length (nmstate.ConditionList_Set now conditions t status reason message)
  = List.length conditions.
Proof.
  induction conditions as [|c' rest IH];
    cbn [nmstate.ConditionList_Set nmstate.ConditionList_Find List.length].
  - discriminate.
  - destruct (String.eqb (nmstate.CondType c') t); cbn [List.length].
    + reflexivity.
    + intros Hc. now rewrite IH.
Qed.

(** The two calls of a setter, on the length of the list and on the
    conditions of other types. *)
Lemma Set_twice_frame ta tb conditions s1 r1 m1 s2 r2 m2 :
  let conditions' :=
    nmstate.ConditionList_Set tb
      (nmstate.ConditionList_Set ta conditions
         nmstate.NodeNetworkConfigurationPolicyConditionDegraded s1 r1 m1)
      nmstate.NodeNetworkConfigurationPolicyConditionAvailable s2 r2 m2 in
  (forall t,
      t <> nmstate.NodeNetworkConfigurationPolicyConditionDegraded ->
      t <> nmstate.NodeNetworkConfigurationPolicyConditionAvailable ->
      nmstate.ConditionList_Find conditions' t
      = nmstate.ConditionList_Find conditions t) /\
  (List.length conditions <= List.length conditions'
   <= 2 + List.length conditions)%nat /\
  (forall d a,
      nmstate.ConditionList_Find conditions
        nmstate.NodeNetworkConfigurationPolicyConditionDegraded = Some d ->
      nmstate.ConditionList_Find conditions
        nmstate.NodeNetworkConfigurationPolicyConditionAvailable = Some a ->
      List.length conditions' = List.length conditions).
Proof.
  cbv zeta. split; [|split].
  - intros t Hd Ha. now rewrite !Find_Set_other.
  - pose proof (Set_length_bounds ta conditions
                  nmstate.NodeNetworkConfigurationPolicyConditionDegraded s1 r1 m1).
    pose proof (Set_length_bounds tb
                  (nmstate.ConditionList_Set ta conditions
                     nmstate.NodeNetworkConfigurationPolicyConditionDegraded s1 r1 m1)
                  nmstate.NodeNetworkConfigurationPolicyConditionAvailable s2 r2 m2).
    lia.
  - intros d a Hd Ha.
    rewrite (Set_length_present tb _ _ s2 r2 m2 a).
    + exact (Set_length_present ta _ _ s1 r1 m1 d Hd).
    + rewrite Find_Set_other; [exact Ha|].
      intros Heq. symmetry in Heq. exact (Degraded_not_Available Heq).
Qed.

Section SetterCoverage.

Context {error PolicySpec W : Type} `{Clock W}.

Local Abbreviation Degraded := nmstate.NodeNetworkConfigurationPolicyConditionDegraded.
Local Abbreviation Available := nmstate.NodeNetworkConfigurationPolicyConditionAvailable.

Local Ltac two_sets run :=
rewrite (run error PolicySpec W _); cbn [value];
match goal with
| |- context [nmstate.ConditionList_Set ?tb
                (nmstate.ConditionList_Set ?ta ?l _ ?s1 ?r1 ?m1) _ ?s2 ?r2 ?m2] =>
    let Hd := fresh "Hd" in
    let Ha := fresh "Ha" in
    destruct (Set_Degraded_Available ta tb l s1 r1 m1 s2 r2 m2) as [Hd Ha];
    apply conditionIs_projections in Hd, Ha;
    destruct Hd as (Hds & Hdr & Hdm), Ha as (Has & Har & Ham)
end.

(** X8.  The statuses each setter leaves: [Unknown] on both conditions
  after [SetPolicyProgressing]; [Degraded] [False] and [Available]
  [True] after [SetPolicySuccess] and after [SetPolicyNotMatching];
  [Degraded] [True] and [Available] [False] after
  [SetPolicyFailedToConfigure]. *)
Theorem SetPolicy_statuses conditions message (w : W) :
let progressing :=
  value (SetPolicyProgressing (error := error) (PolicySpec := PolicySpec)
           conditions message w) in
let success :=
  value (SetPolicySuccess (error := error) (PolicySpec := PolicySpec)
           conditions message w) in
let notMatching :=
  value (SetPolicyNotMatching (error := error) (PolicySpec := PolicySpec)
           conditions message w) in
let failed :=
  value (SetPolicyFailedToConfigure (error := error) (PolicySpec := PolicySpec)
           conditions message w) in
(statusOf progressing Degraded = Some corev1.ConditionUnknown /\
 statusOf progressing Available = Some corev1.ConditionUnknown) /\
(statusOf success Degraded = Some corev1.ConditionFalse /\
 statusOf success Available = Some corev1.ConditionTrue) /\
(statusOf notMatching Degraded = Some corev1.ConditionFalse /\
 statusOf notMatching Available = Some corev1.ConditionTrue) /\
(statusOf failed Degraded = Some corev1.ConditionTrue /\
 statusOf failed Available = Some corev1.ConditionFalse).
Proof.
cbv zeta. repeat split.
1,2: two_sets @SetPolicyProgressing_run; assumption.
1,2: two_sets @SetPolicySuccess_run; assumption.
1,2: two_sets @SetPolicyNotMatching_run; assumption.
1,2: two_sets @SetPolicyFailedToConfigure_run; assumption.
Qed.

Local Ltac overwrites run :=
intros t Ht;
rewrite !(run error PolicySpec W _); cbn [value];
match goal with
| |- context [statusOf
                (nmstate.ConditionList_Set ?tb
                   (nmstate.ConditionList_Set ?ta ?l _ ?s1 ?r1 ?m1) _ ?s2 ?r2 ?m2) _
              = statusOf
                  (nmstate.ConditionList_Set ?tb'
                     (nmstate.ConditionList_Set ?ta' ?l' _ _ _ _) _ _ _ _) _] =>
    destruct (Set_Degraded_Available ta tb l s1 r1 m1 s2 r2 m2) as [Hd Ha];
    destruct (Set_Degraded_Available ta' tb' l' s1 r1 m1 s2 r2 m2) as [Hd' Ha'];
    apply conditionIs_projections in Hd, Ha, Hd', Ha';
    destruct Hd as (Hds & Hdr & Hdm), Ha as (Has & Har & Ham),
             Hd' as (Hds' & Hdr' & Hdm'), Ha' as (Has' & Har' & Ham');
    destruct Ht as [-> | ->]; repeat split; congruence
end.

(** X9.  A setter overwrites: the status, reason and message it leaves
  on [Degraded] and [Available] are the same whatever the list held
  before (the trace of another setter, or nothing) and whatever the
  clock reads. *)
Theorem SetPolicy_overwrites conditions conditions' message (w w' : W) :
sameVerdict
  (value (SetPolicyProgressing (error := error) (PolicySpec := PolicySpec)
            conditions message w))
  (value (SetPolicyProgressing (error := error) (PolicySpec := PolicySpec)
            conditions' message w')) /\
sameVerdict
  (value (SetPolicySuccess (error := error) (PolicySpec := PolicySpec)
            conditions message w))
  (value (SetPolicySuccess (error := error) (PolicySpec := PolicySpec)
            conditions' message w')) /\
sameVerdict
  (value (SetPolicyNotMatching (error := error) (PolicySpec := PolicySpec)
            conditions message w))
  (value (SetPolicyNotMatching (error := error) (PolicySpec := PolicySpec)
            conditions' message w')) /\
sameVerdict
  (value (SetPolicyFailedToConfigure (error := error) (PolicySpec := PolicySpec)
            conditions message w))
  (value (SetPolicyFailedToConfigure (error := error) (PolicySpec := PolicySpec)
            conditions' message w')).
Proof.
split; [|split; [|split]].
- overwrites @SetPolicyProgressing_run.
- overwrites @SetPolicySuccess_run.
- overwrites @SetPolicyNotMatching_run.
- overwrites @SetPolicyFailedToConfigure_run.
Qed.

Local Ltac frame run :=
rewrite (run error PolicySpec W _); cbn [value];
match goal with
| |- context [nmstate.ConditionList_Set ?tb
                (nmstate.ConditionList_Set ?ta ?l _ ?s1 ?r1 ?m1) _ ?s2 ?r2 ?m2] =>
    destruct (Set_twice_frame ta tb l s1 r1 m1 s2 r2 m2) as (Hother & Hlen & Hsame)
end.

(** X10.  A setter touches [Degraded] and [Available] only: the first
  condition of any other type is found unchanged after it. *)
Theorem SetPolicy_keeps_other_types conditions message (w : W) t :
t <> Degraded ->
t <> Available ->
nmstate.ConditionList_Find
  (value (SetPolicyProgressing (error := error) (PolicySpec := PolicySpec)
            conditions message w)) t
= nmstate.ConditionList_Find conditions t /\
nmstate.ConditionList_Find
  (value (SetPolicySuccess (error := error) (PolicySpec := PolicySpec)
            conditions message w)) t
= nmstate.ConditionList_Find conditions t /\
nmstate.ConditionList_Find
  (value (SetPolicyNotMatching (error := error) (PolicySpec := PolicySpec)
            conditions message w)) t
= nmstate.ConditionList_Find conditions t /\
nmstate.ConditionList_Find
  (value (SetPolicyFailedToConfigure (error := error) (PolicySpec := PolicySpec)
            conditions message w)) t
= nmstate.ConditionList_Find conditions t.
Proof.
intros Hd Ha. split; [|split; [|split]].
- frame @SetPolicyProgressing_run. now apply Hother.
- frame @SetPolicySuccess_run. now apply Hother.
- frame @SetPolicyNotMatching_run. now apply Hother.
- frame @SetPolicyFailedToConfigure_run. now apply Hother.
Qed.

(** X11.  A setter never drops a condition and adds at most two; on a
  list that already has a [Degraded] and an [Available] condition it
  keeps the number of conditions. *)
Theorem SetPolicy_length conditions message (w : W) :
let progressing :=
  value (SetPolicyProgressing (error := error) (PolicySpec := PolicySpec)
           conditions message w) in
let success :=
  value (SetPolicySuccess (error := error) (PolicySpec := PolicySpec)
           conditions message w) in
let notMatching :=
  value (SetPolicyNotMatching (error := error) (PolicySpec := PolicySpec)
           conditions message w) in
let failed :=
  value (SetPolicyFailedToConfigure (error := error) (PolicySpec := PolicySpec)
           conditions message w) in
((List.length conditions <= List.length progressing <= 2 + List.length conditions)%nat /\
 (List.length conditions <= List.length success <= 2 + List.length conditions)%nat /\
 (List.length conditions <= List.length notMatching <= 2 + List.length conditions)%nat /\
 (List.length conditions <= List.length failed <= 2 + List.length conditions)%nat) /\
(forall d a,
    nmstate.ConditionList_Find conditions Degraded = Some d ->
    nmstate.ConditionList_Find conditions Available = Some a ->
    List.length progressing = List.length conditions /\
    List.length success = List.length conditions /\
    List.length notMatching = List.length conditions /\
    List.length failed = List.length conditions).
Proof.
cbv zeta. split; [split; [|split; [|split]] | intros d a Hd Ha; split; [|split; [|split]]].
- frame @SetPolicyProgressing_run. exact Hlen.
- frame @SetPolicySuccess_run. exact Hlen.
- frame @SetPolicyNotMatching_run. exact Hlen.
- frame @SetPolicyFailedToConfigure_run. exact Hlen.
- frame @SetPolicyProgressing_run. exact (Hsame d a Hd Ha).
- frame @SetPolicySuccess_run. exact (Hsame d a Hd Ha).
- frame @SetPolicyNotMatching_run. exact (Hsame d a Hd Ha).
- frame @SetPolicyFailedToConfigure_run. exact (Hsame d a Hd Ha).
Qed.

End SetterCoverage.

(** ** More concrete runs *)

Module MoreRuns.

Import fake.
Local Open Scope string_scope.

Local Abbreviation Degraded := nmstate.NodeNetworkConfigurationPolicyConditionDegraded.
Local Abbreviation Available := nmstate.NodeNetworkConfigurationPolicyConditionAvailable.
Local Abbreviation updating w := (Update enactmentconditions.Count label key w).
Local Abbreviation resetting w := (Reset (PolicySpec := string) key w).

(** The write that is accepted in the contested cluster reports the
  failure. *)
Lemma Update_writes_one_verdict_witness :
exists sd sa reason md ma,
  conditionIs
    (policyConditions
       (persisted enactmentconditions.Count (bump vlan) [failing "a"]
          [node "a"] 102 103))
    Degraded sd reason md /\
  conditionIs
    (policyConditions
       (persisted enactmentconditions.Count (bump vlan) [failing "a"]
          [node "a"] 102 103))
    Available sa reason ma /\
  ((sd = "Unknown" /\ sa = "Unknown" /\ reason = "ConfigurationProgressing") \/
   (sd = "False" /\ sa = "True" /\
    (reason = "SuccessfullyConfigured" \/ reason = "ConfigurationNoMatchingNode")) \/
   (sd = "True" /\ sa = "False" /\ reason = "FailedToConfigure")).
Proof.
apply (Update_writes_one_verdict enactmentconditions.Count label key contested
         (firstn 11 (events (updating contested)))
         (persisted enactmentconditions.Count (bump vlan) [failing "a"]
            [node "a"] 102 103)
         None []).
vm_compute. reflexivity.
Defined.

(** Four nodes finished, three match, one failed: the reason says so. *)
Lemma Update_reason_reads_the_tally_witness :
exists ta tb written r post',
  skipn 3 (events (updating broken))
  = EvNow ta :: EvNow tb :: EvStatusUpdate written r :: post' /\
  reasonOf (policyConditions written) Available = Some "FailedToConfigure".
Proof.
destruct (Update_reason_reads_the_tally enactmentconditions.Count label key broken
            [] vlan filter brokenReports fourNodes
            (skipn 3 (events (updating broken))))
  as (ta & tb & written & r & post' & Hpost & _ & _ & Hfailed & _).
- vm_compute. reflexivity.
- exists ta, tb, written, r, post'. split; [exact Hpost|].
  apply Hfailed. split; [|split].
  + vm_compute. discriminate.
  + vm_compute. discriminate.
  + left. reflexivity.
Defined.

(** The same three reports on a policy without conditions and on one with
  stale conditions. *)
Lemma Update_verdict_forgets_conditions_witness :
exists ta tb written r rest ta' tb' written' r' rest',
  skipn 3 (events (updating healthy))
  = EvNow ta :: EvNow tb :: EvStatusUpdate written r :: rest /\
  skipn 3 (events (updating healthyStale))
  = EvNow ta' :: EvNow tb' :: EvStatusUpdate written' r' :: rest' /\
  sameVerdict (policyConditions written) (policyConditions written').
Proof.
apply (Update_verdict_forgets_conditions enactmentconditions.Count label
         key healthy [] vlan filter healthyReports threeNodes
         (skipn 3 (events (updating healthy)))
         key healthyStale [] vlanStale filter healthyReports threeNodes
         (skipn 3 (events (updating healthyStale)))).
- vm_compute. reflexivity.
- vm_compute. reflexivity.
- reflexivity.
- reflexivity.
Defined.

(** Every write is rejected: the conflict comes back after five attempts;
  the policy is gone: nothing is written. *)
Lemma Update_error_origin_witness :
value (updating besieged) = Some (Conflict "vlan") /\
List.length (List.filter isGet (events (updating besieged))) = 5%nat /\
value (updating lost) = Some (Wrapped (NotFound "vlan") "getting policy failed") /\
Forall (fun ev => isPersisted ev = false) (events (updating lost)).
Proof.
assert (Hconflict : value (updating besieged) = Some (Conflict "vlan"))
  by (vm_compute; reflexivity).
assert (Hlost : value (updating lost)
                = Some (Wrapped (NotFound "vlan") "getting policy failed"))
  by (vm_compute; reflexivity).
destruct (Update_error_origin enactmentconditions.Count label key besieged
            (Conflict "vlan") Hconflict) as (_ & _ & Hfive).
destruct (Update_error_origin enactmentconditions.Count label key lost
            (Wrapped (NotFound "vlan") "getting policy failed") Hlost)
  as (_ & Hnone & _).
split; [exact Hconflict|]. split; [apply Hfive; reflexivity|].
split; [exact Hlost | exact Hnone].
Defined.

(** The enactments of the contested cluster are selected by the name of
  the policy that was fetched. *)
Lemma Update_reads_in_order_witness :
exists pre' policy,
  [EvGet (error := error) key (Ok vlan)]
  = (pre' ++ [EvGet key (Ok policy)])%list /\
  filter = [(label, metav1.Name (nmstatev1beta1.ObjectMeta policy))].
Proof.
destruct (Update_reads_in_order enactmentconditions.Count label key contested)
  as (_ & _ & Hlist & _).
apply (Hlist [EvGet key (Ok vlan)] filter (Ok [configured "a"])
         (skipn 2 (events (updating contested)))).
vm_compute. reflexivity.
Defined.

(** The condition of a third type survives the setters. *)
Lemma SetPolicy_keeps_other_types_witness :
nmstate.ConditionList_Find
  (value (SetPolicyProgressing (error := error) (PolicySpec := string)
            stale "1/3" healthy)) "Reviewed"
= nmstate.ConditionList_Find stale "Reviewed" /\
nmstate.ConditionList_Find
  (value (SetPolicySuccess (error := error) (PolicySpec := string)
            stale "1/3" healthy)) "Reviewed"
= nmstate.ConditionList_Find stale "Reviewed" /\
nmstate.ConditionList_Find
  (value (SetPolicyNotMatching (error := error) (PolicySpec := string)
            stale "1/3" healthy)) "Reviewed"
= nmstate.ConditionList_Find stale "Reviewed" /\
nmstate.ConditionList_Find
  (value (SetPolicyFailedToConfigure (error := error) (PolicySpec := string)
            stale "1/3" healthy)) "Reviewed"
= nmstate.ConditionList_Find stale "Reviewed".
Proof.
apply (SetPolicy_keeps_other_types (error := error) (PolicySpec := string)
         stale "1/3" healthy "Reviewed"); discriminate.
Defined.

(** [Reset] in the besieged cluster gives up after five attempts. *)
Lemma Reset_error_origin_witness :
value (resetting besieged) = Some (Conflict "vlan") /\
List.length (List.filter isGet (events (resetting besieged))) = 5%nat /\
Forall (fun ev => isPersisted ev = false) (events (resetting besieged)).
Proof.
assert (Hconflict : value (resetting besieged) = Some (Conflict "vlan"))
  by (vm_compute; reflexivity).
destruct (Reset_error_origin (PolicySpec := string) key besieged
            (Conflict "vlan") Hconflict) as (_ & Hnone & Hfive).
split; [exact Hconflict|]. split; [apply Hfive; reflexivity | exact Hnone].
Defined.

End MoreRuns.
